(** * Rollia: the deterministic rules core

    A shallow embedding of the combat engine
    ([backend/src/services/combatService.ts]), the segment annotator
    ([backend/src/services/intentUtility.ts]), the status normalizer
    ([normalizeStatusUpdate] in [backend/src/services/aiService.ts]) and the
    pending-check bookkeeping of the [/dm-response] route
    ([backend/src/routes/diceRoutes.ts]), followed by the properties that
    were checked against them.

    Conventions of the embedding.
    - JavaScript numbers that the engine handles (dice, rounds, durations)
      are integers and are modelled by [Z]; hit points and mana are
      integers or [NaN] ([Num]), since [NaN] passes the [typeof] tests that
      guard them and [Number(...)] makes it of what it cannot read; numbers
      that come from JSON and may be fractional (severity, difficulty
      class, confidence) are modelled by [Q].
    - Mutable objects become explicit state: a function that mutates
      [state] and pushes onto [events] becomes a function on a context
      holding both, plus the position in the entropy source.
    - [Math.random()] is an entropy source: a sequence of rationals of
      [[0,1)], consumed left to right. *)

From Stdlib Require Import ZArith QArith Qround List String Ascii Bool Lia.
From stdpp Require Import base option list gmap strings pretty.
Import ListNotations.

Local Open Scope string_scope.
Local Open Scope list_scope.
Local Open Scope Z_scope.

(** ** Shared helpers *)

(** Result of a call that may [throw]. *)
Inductive Outcome (A : Type) : Type :=
  | Returned (a : A)
  | Thrown (message : string).
Arguments Returned {A} a.
Arguments Thrown {A} message.

(** JavaScript truthiness of an optional string: [undefined], [null] and the
    empty string are falsy. *)
Definition truthy (o : option string) : option string :=
  match o with
  | Some s => if String.eqb s "" then None else Some s
  | None => None
  end.

(** [target.field = v] where [target = array.find(p)]: the update reaches the
    first element satisfying [p], and only that one. *)
Fixpoint updateFirst {A : Type} (p : A -> bool) (f : A -> A) (l : list A) : list A :=
  match l with
  | [] => []
  | x :: rest => if p x then f x :: rest else x :: updateFirst p f rest
  end.

(** [array.slice(-n)] for [n > 0]: the last [n] elements. *)
Definition sliceLast {A : Type} (n : nat) (l : list A) : list A :=
  skipn (List.length l - n)%nat l.

(** ** Numbers that may be [NaN] *)

(** A JavaScript number as the engine meets it in hit points and mana: an
    integer, or [NaN]. *)
Inductive Num : Type :=
  | Int (z : Z)
  | NaN.

Coercion Int : Z >-> Num.

Module Num.

(** [a - b] *)
Definition sub (a b : Num) : Num :=
  match a, b with
  | Int x, Int y => Int (x - y)
  | _, _ => NaN
  end.

(** [Math.min(a, b)] and [Math.max(a, b)]: [NaN] as soon as an argument is. *)
Definition min (a b : Num) : Num :=
  match a, b with
  | Int x, Int y => Int (Z.min x y)
  | _, _ => NaN
  end.

Definition max (a b : Num) : Num :=
  match a, b with
  | Int x, Int y => Int (Z.max x y)
  | _, _ => NaN
  end.

(** [a === b], [a < b] and [a <= b]: false as soon as an operand is [NaN]. *)
Definition eqb (a b : Num) : bool :=
  match a, b with
  | Int x, Int y => x =? y
  | _, _ => false
  end.

Definition ltb (a b : Num) : bool :=
  match a, b with
  | Int x, Int y => x <? y
  | _, _ => false
  end.

Definition leb (a b : Num) : bool :=
  match a, b with
  | Int x, Int y => x <=? y
  | _, _ => false
  end.

(** Both are integers, and [a <= b]. *)
Definition le (a b : Num) : Prop :=
  match a, b with
  | Int x, Int y => x <= y
  | _, _ => False
  end.

End Num.

(** ** Entropy: [Math.random()] *)

(** A value of [[0,1)], as the fraction [u_num / (u_num + u_gap + 1)]: every
    rational of the interval has this form, and nothing else does. *)
Record Unit01 : Type := { u_num : N; u_gap : N }.

Definition u_den (u : Unit01) : Z := Z.of_N (u_num u) + Z.of_N (u_gap u) + 1.

(** [Math.floor(u * faces)] *)
Definition floorTimes (u : Unit01) (faces : Z) : Z :=
  (Z.of_N (u_num u) * faces) / u_den u.

(** The draw that makes a [faces]-sided die show [k] (for [1 <= k <= faces]). *)
Definition showing (k faces : Z) : Unit01 :=
  {| u_num := Z.to_N (k - 1); u_gap := Z.to_N (faces - k) |}.

(** ** JavaScript strings and regular expressions *)

Module JS.

(** A string is a sequence of UTF-16 code units. *)
Definition jstring : Type := list N.

(** An ASCII literal of the source. *)
Definition str (s : string) : jstring :=
  map (fun a => N.of_nat (nat_of_ascii a)) (list_ascii_of_string s).

Definition jeqb (a b : jstring) : bool := bool_decide (a = b).

(** *** Character classes *)

Definition between (lo hi c : N) : bool := ((lo <=? c) && (c <=? hi))%N.

Definition is_digit (c : N) : bool := between 48 57 c.
Definition is_upper (c : N) : bool := between 65 90 c.
Definition is_lower (c : N) : bool := between 97 122 c.

(** [\w] *)
Definition is_word (c : N) : bool :=
  is_digit c || is_upper c || is_lower c || (c =? 95)%N.

(** Line terminators: LF, CR, LS, PS. *)
Definition is_newline (c : N) : bool :=
  ((c =? 10) || (c =? 13) || (c =? 8232) || (c =? 8233))%N.

(** [\s], which is also what [trim] strips: white space and line
    terminators. *)
Definition is_space (c : N) : bool :=
  (between 9 13 c || (c =? 32) || (c =? 160) || (c =? 5760) || between 8192 8202 c
   || (c =? 8232) || (c =? 8233) || (c =? 8239) || (c =? 8287) || (c =? 12288)
   || (c =? 65279))%N.

(** The three quotation marks of the source: the ASCII double quote (U+0022),
    U+201C and U+201D. *)
Definition is_quote (c : N) : bool := ((c =? 34) || (c =? 8220) || (c =? 8221))%N.

(** *** String methods *)

(** Case mapping of the ASCII letters. The Unicode case tables are not
    modelled: other code units are left as they are. No pattern, keyword or
    identifier of the modelled code contains a non-ASCII letter. *)
Definition lower_unit (c : N) : N := if is_upper c then (c + 32)%N else c.
Definition upper_unit (c : N) : N := if is_lower c then (c - 32)%N else c.

Definition toLowerCase (s : jstring) : jstring := map lower_unit s.
Definition toUpperCase (s : jstring) : jstring := map upper_unit s.

Fixpoint trimStart (s : jstring) : jstring :=
  match s with
  | c :: rest => if is_space c then trimStart rest else s
  | [] => []
  end.

Definition trim (s : jstring) : jstring := rev (trimStart (rev (trimStart s))).

Fixpoint startsWith (s prefix : jstring) : bool :=
  match prefix, s with
  | [], _ => true
  | p :: prefix', c :: s' => (p =? c)%N && startsWith s' prefix'
  | _ :: _, [] => false
  end.

Fixpoint includes (s needle : jstring) : bool :=
  startsWith s needle ||
  match s with
  | [] => false
  | _ :: s' => includes s' needle
  end.

(** *** Regular expressions

    The fragment the modelled patterns use. Matching works on code units
    (no [u] flag). *)
Inductive Re : Type :=
  | Eps
  | Chr (p : N -> bool)
  | Seq (a b : Re)
  | Alt (a b : Re)
  | Star (a : Re)
  | Bol
  | Eol
  | WordB.

Definition word_before (prev : option N) : bool :=
  match prev with Some c => is_word c | None => false end.

Definition word_after (s : jstring) : bool :=
  match s with c :: _ => is_word c | [] => false end.

(** [matchRe r prev s k]: [r] matches a prefix of [s] (the code unit before
    [s] being [prev]) in such a way that the continuation [k] accepts what
    follows. A [Star] is given as many rounds as [s] has code units. *)
Fixpoint matchRe (r : Re) (prev : option N) (s : jstring)
    (k : option N -> jstring -> bool) : bool :=
  match r with
  | Eps => k prev s
  | Chr p =>
    match s with
    | c :: rest => p c && k (Some c) rest
    | [] => false
    end
  | Seq a b => matchRe a prev s (fun prev' s' => matchRe b prev' s' k)
  | Alt a b => matchRe a prev s k || matchRe b prev s k
  | Star a =>
    (fix rounds (n : nat) (prev : option N) (s : jstring) : bool :=
       k prev s ||
       match n with
       | O => false
       | S n' => matchRe a prev s (rounds n')
       end) (List.length s) prev s
  | Bol => match prev with None => k prev s | Some _ => false end
  | Eol => match s with [] => k prev s | _ :: _ => false end
  | WordB => xorb (word_before prev) (word_after s) && k prev s
  end.

Fixpoint searchFrom (r : Re) (prev : option N) (s : jstring) : bool :=
  matchRe r prev s (fun _ _ => true) ||
  match s with
  | [] => false
  | c :: rest => searchFrom r (Some c) rest
  end.

(** [regex.test(s)] for a regex without the [g] flag. *)
Definition test (r : Re) (s : jstring) : bool := searchFrom r None s.

(** *** Pattern notation *)

(** One code unit, compared as the [i] flag compares an ASCII character. *)
Definition ci (c : N) : Re := Chr (fun x => (upper_unit x =? upper_unit c)%N).

(** A literal run of characters under the [i] flag. *)
Definition lit (s : string) : Re := fold_right (fun c r => Seq (ci c) r) Eps (str s).

Definition alts (l : list Re) : Re :=
  match l with
  | [] => Chr (fun _ => false)
  | r :: rest => fold_left Alt rest r
  end.

Definition words (l : list string) : Re := alts (map lit l).

Definition opt (r : Re) : Re := Alt r Eps.
Definition plus (r : Re) : Re := Seq r (Star r).
Definition seqs (l : list Re) : Re := fold_right Seq Eps l.

(** [\s] and [.] *)
Definition ws : Re := Chr is_space.
Definition dot : Re := Chr (fun c => negb (is_newline c)).

(** [\b( ... )\b] *)
Definition whole (r : Re) : Re := seqs [WordB; r; WordB].

(** [s.match(/(\d+)/)], then [Number(match[1])]: the value of the first run
    of digits of [s], if there is one. *)
Fixpoint digitsValue (acc : N) (s : jstring) : N :=
  match s with
  | c :: rest => if is_digit c then digitsValue (acc * 10 + (c - 48))%N rest else acc
  | [] => acc
  end.

Fixpoint firstNumber (s : jstring) : option N :=
  match s with
  | [] => None
  | c :: rest => if is_digit c then Some (digitsValue 0 s) else firstNumber rest
  end.

End JS.

(** ** The intent annotator (intentUtility.ts) *)

Module Intent.
Import JS.

Inductive SegmentHint : Type :=
  | SPEECH | REQUEST | ACTION_NOW | PAST_REF | PLAN | UNKNOWN.

Definition is_hint (a b : SegmentHint) : bool :=
  match a, b with
  | SPEECH, SPEECH | REQUEST, REQUEST | ACTION_NOW, ACTION_NOW
  | PAST_REF, PAST_REF | PLAN, PLAN | UNKNOWN, UNKNOWN => true
  | _, _ => false
  end.

Record Segment : Type := {
  seg_id : string;
  text : jstring;
  hint : option SegmentHint;
  confidence : option Q;
  anchorMatch : option bool;
  noRollCandidate : option bool;
  markers : option (list string)
}.

Record LastResolvedAction : Type := {
  summary : jstring;
  domain : jstring;
  stat : option jstring;
  skill : option jstring;
  timestamp : Z;
  keywords : option (list jstring)
}.

(** [/\b(i thought|i tried|turns out|i couldn'?t|i did(?:n'?t)?|i was going to|earlier|a moment ago|just now)\b/i],
    [/\b(was|were)\b/i], [/\b(tried|couldn'?t|didn'?t|wasn'?t|weren'?t)\b/i],
    [/\b(my bad|sorry|oops|i didn'?t mean|i just thought)\b/i] *)
Definition PAST_REF_MARKERS : list Re :=
  [ whole (alts [ lit "i thought"; lit "i tried"; lit "turns out";
                  seqs [lit "i couldn"; opt (lit "'"); lit "t"];
                  seqs [lit "i did"; opt (seqs [lit "n"; opt (lit "'"); lit "t"])];
                  lit "i was going to"; lit "earlier"; lit "a moment ago"; lit "just now" ]);
    whole (words ["was"; "were"]);
    whole (alts [ lit "tried";
                  seqs [lit "couldn"; opt (lit "'"); lit "t"];
                  seqs [lit "didn"; opt (lit "'"); lit "t"];
                  seqs [lit "wasn"; opt (lit "'"); lit "t"];
                  seqs [lit "weren"; opt (lit "'"); lit "t"] ]);
    whole (alts [ lit "my bad"; lit "sorry"; lit "oops";
                  seqs [lit "i didn"; opt (lit "'"); lit "t mean"];
                  lit "i just thought" ]) ].

(** [/\b(can you|could you|give me|i ask for|i order|i'?d like|please)\b/i],
    [/\b(barkeep|bartender)\b/i] *)
Definition REQUEST_MARKERS : list Re :=
  [ whole (alts [ lit "can you"; lit "could you"; lit "give me"; lit "i ask for";
                  lit "i order"; seqs [lit "i"; opt (lit "'"); lit "d like"]; lit "please" ]);
    whole (words ["barkeep"; "bartender"]) ].

(** [/^\s*i\s+(say|tell|ask)\b/i] *)
Definition SPEECH_MARKERS : list Re :=
  [ seqs [Bol; Star ws; lit "i"; plus ws; words ["say"; "tell"; "ask"]; WordB] ].

(** [/\b(ale|water|bread|room|information|name)\b/i] *)
Definition TRIVIAL_ITEMS : Re :=
  whole (words ["ale"; "water"; "bread"; "room"; "information"; "name"]).

(** [/\b(threaten|insult|intimidate|steal|refuse|demand)\b/i] *)
Definition AGGRESSION_WORDS : Re :=
  whole (words ["threaten"; "insult"; "intimidate"; "steal"; "refuse"; "demand"]).

(** [/\b(i\s+)?(attack|strike|swing|shoot|stab|slash|kick|punch|grapple)\b/i],
    [/\b(i\s+)?(try|attempt)\s+to\b/i],
    [/\b(i\s+)?(jump|climb|flip|vault|sneak|hide|steal)\b/i] *)
Definition ACTION_NOW_MARKERS : list Re :=
  [ seqs [WordB; opt (seqs [lit "i"; plus ws]);
          words ["attack"; "strike"; "swing"; "shoot"; "stab"; "slash"; "kick"; "punch";
                 "grapple"]; WordB];
    seqs [WordB; opt (seqs [lit "i"; plus ws]); words ["try"; "attempt"]; plus ws;
          lit "to"; WordB];
    seqs [WordB; opt (seqs [lit "i"; plus ws]);
          words ["jump"; "climb"; "flip"; "vault"; "sneak"; "hide"; "steal"]; WordB] ].

(** [text.replace(/[Q][^Q]*[Q]/g, '')] where [Q] is the class of the three
    quotation marks: scanning from the left, a quotation mark that has a
    later one opens a span that ends at the very next quotation mark. *)
Fixpoint dropQuoted (skipping : bool) (s : jstring) : jstring :=
  match s with
  | [] => []
  | c :: rest =>
    if skipping then dropQuoted (negb (is_quote c)) rest
    else if is_quote c && existsb is_quote rest then dropQuoted true rest
    else c :: dropQuoted false rest
  end.

Definition stripQuotedSegments (t : jstring) : jstring := trim (dropQuoted false t).

(** [split(/\s+/)], without the empty strings it can leave at the two ends
    (the caller filters on length). *)
Fixpoint tokens (cur : jstring) (s : jstring) : list jstring :=
  match s with
  | [] => match cur with [] => [] | _ => [rev cur] end
  | c :: rest =>
    if is_space c
    then match cur with [] => tokens [] rest | _ => rev cur :: tokens [] rest end
    else tokens (c :: cur) rest
  end.

Definition extractKeywords (t : jstring) : list jstring :=
  List.filter (fun token => (2 <? List.length token)%nat)
    (tokens []
       (map (fun c => if is_lower c || is_digit c || is_space c then c else 32%N)
          (toLowerCase t))).

Definition hasAnchorMatch (segmentText : jstring) (last : option LastResolvedAction) : bool :=
  match last with
  | None => false
  | Some l =>
    let kws :=
      match keywords l with
      | Some (k :: ks) => k :: ks
      | _ => extractKeywords (summary l)
      end in
    let lowered := toLowerCase segmentText in
    existsb (fun keyword => negb (jeqb keyword []) && includes lowered keyword) kws
  end.

Definition detectPastRef (segmentText : jstring) : bool :=
  existsb (fun pattern => test pattern segmentText) PAST_REF_MARKERS.

Definition detectRequest (segmentText : jstring) : bool :=
  existsb (fun pattern => test pattern segmentText) REQUEST_MARKERS.

(** The first test is [/^[Q].+[Q]$/] on the trimmed text. *)
Definition detectSpeech (segmentText : jstring) : bool :=
  if test (seqs [Bol; Chr is_quote; plus dot; Chr is_quote; Eol]) (trim segmentText)
  then true
  else existsb (fun pattern => test pattern segmentText) SPEECH_MARKERS.

Definition detectActionNow (segmentText : jstring) : bool :=
  existsb (fun pattern => test pattern segmentText) ACTION_NOW_MARKERS.

(** The three variables the callback of [annotateSegments] reassigns. *)
Record Tag : Type := { t_hint : SegmentHint; t_confidence : Q; t_markers : list string }.

Definition retag (h : SegmentHint) (conf : Q) (marker : string) (t : Tag) : Tag :=
  {| t_hint := h; t_confidence := conf; t_markers := t_markers t ++ [marker] |}.

(** The callback of [segments.map] in [annotateSegments]. *)
Definition annotate (last : option LastResolvedAction) (segment : Segment) : Segment :=
  let t := {| t_hint := UNKNOWN; t_confidence := (4 # 10)%Q; t_markers := [] |} in
  let anchor := hasAnchorMatch (stripQuotedSegments (text segment)) last in
  let pastRef := detectPastRef (text segment) in
  let t := if pastRef then retag PAST_REF (85 # 100)%Q "PAST_REF" t else t in
  let t := if anchor && pastRef then retag PAST_REF (95 # 100)%Q "ANCHOR_PAST_REF" t else t in
  let t := if negb (is_hint (t_hint t) PAST_REF) && detectSpeech (text segment)
           then retag SPEECH (8 # 10)%Q "SPEECH" t else t in
  let t := if negb (is_hint (t_hint t) PAST_REF) && detectRequest (text segment)
           then retag REQUEST (8 # 10)%Q "REQUEST" t else t in
  let t := if is_hint (t_hint t) UNKNOWN && detectActionNow (text segment)
           then retag ACTION_NOW (7 # 10)%Q "ACTION_NOW" t else t in
  let '(noRoll, t) :=
    if is_hint (t_hint t) PAST_REF || is_hint (t_hint t) SPEECH then (true, t)
    else if is_hint (t_hint t) REQUEST then
      if test TRIVIAL_ITEMS (text segment) && negb (test AGGRESSION_WORDS (text segment))
      then (true, {| t_hint := t_hint t; t_confidence := t_confidence t;
                     t_markers := t_markers t ++ ["TRIVIAL_REQUEST"] |})
      else (false, t)
    else (false, t) in
  {| seg_id := seg_id segment;
     text := text segment;
     hint := Some (t_hint t);
     confidence := Some (t_confidence t);
     anchorMatch := Some anchor;
     noRollCandidate := Some noRoll;
     markers := Some (t_markers t) |}.

Definition annotateSegments (segments : list Segment) (last : option LastResolvedAction)
    : list Segment :=
  map (annotate last) segments.

(** A segment as [segmentMessage] produces it: an id and a text. *)
Definition segment (i : string) (t : jstring) : Segment :=
  {| seg_id := i; text := t; hint := None; confidence := None; anchorMatch := None;
     noRollCandidate := None; markers := None |}.

End Intent.

(** ** The status normalizer ([normalizeStatusUpdate] in aiService.ts) *)

Module Status.
Import JS.

Inductive StatusType : Type := condition | buff | debuff.

(** [StatusModifiers] and [StatusRestrictions] are objects with optional
    properties; they are kept as the list of the properties present. *)
Definition StatusModifiers : Type := list (string * string).

Inductive RestrictionValue : Type :=
  | Flag (b : bool)
  | Note (s : string).

Definition StatusRestrictions : Type := list (string * RestrictionValue).

Record StatusEffect : Type := {
  id : jstring;
  name : jstring;
  type : StatusType;
  mechanics : jstring;
  trigger : jstring;
  modifiers : StatusModifiers;
  restrictions : StatusRestrictions;
  narrationCues : list string;
  duration : jstring * option Q;
  cure : jstring;
  source : option jstring;
  severity : option Z;
  appliedAt : option Q
}.

(** An entry of [payload.apply] or [payload.update] as the generative layer
    proposes it: every property may be missing ([None]). *)
Record Proposal : Type := {
  p_id : option jstring;
  p_name : option jstring;
  p_type : option jstring;
  p_mechanics : option jstring;
  p_trigger : option jstring;
  p_durationType : option jstring;
  p_durationValue : option Q;
  p_cure : option jstring;
  p_source : option jstring;
  p_severity : option Q;
  p_appliedAt : option Q
}.

(** An entry of [payload.remove]: a string, or an object that may have an
    [id]. *)
Inductive Removal : Type :=
  | ById (s : jstring)
  | ByObject (i : option jstring).

(** The arrays may hold [null]s; a property that is not an array is [None]. *)
Record Payload : Type := {
  apply : option (list (option Proposal));
  update : option (list (option Proposal));
  remove : option (list (option Removal))
}.

Record StatusStateInput : Type := { active_statuses : option (list StatusEffect) }.

Record StatusUpdatePayload : Type := {
  out_apply : list StatusEffect;
  out_update : list StatusEffect;
  out_remove : list jstring
}.

(** Truthiness of an optional string property. *)
Definition present (o : option jstring) : option jstring :=
  match o with
  | Some (c :: s) => Some (c :: s)
  | _ => None
  end.

(** [canonicalStatusMap]. A key inherited from [Object.prototype] yields an
    object without [id], which [buildStatusDefinition] then rejects: such a
    key ends like an absent one. *)
Definition canonicalStatusMap : list (string * (string * string * StatusType)) :=
  [ ("poisoned", ("poisoned", "Poisoned", condition));
    ("blinded", ("blinded", "Blinded", condition));
    ("charmed", ("charmed", "Charmed", condition));
    ("frightened", ("frightened", "Frightened", condition));
    ("paralyzed", ("paralyzed", "Paralyzed", condition));
    ("restrained", ("restrained", "Restrained", condition));
    ("stunned", ("stunned", "Stunned", condition));
    ("unconscious", ("unconscious", "Unconscious", condition));
    ("invisible", ("invisible", "Invisible", condition));
    ("inspired", ("inspired", "Inspired", buff));
    ("blessed", ("blessed", "Blessed", buff));
    ("cursed", ("cursed", "Cursed", debuff));
    ("bleeding", ("bleeding", "Bleeding", debuff));
    ("madness", ("madness", "Madness", debuff));
    ("fear", ("fear", "Fear", debuff));
    ("corruption", ("corruption", "Corruption", debuff));
    ("exhaustion", ("exhaustion", "Exhaustion", debuff)) ].

(** Property lookup in a table whose keys are ASCII literals. *)
Fixpoint lookup {A : Type} (k : jstring) (table : list (string * A)) : option A :=
  match table with
  | [] => None
  | (k', v) :: rest => if jeqb (str k') k then Some v else lookup k rest
  end.

Definition socialOrScenePattern : Re :=
  whole (words ["crowd"; "room"; "tavern"; "atmosphere"; "reputation"; "tension"; "patrons";
                "bystanders"; "onlookers"; "public"; "rumor"; "gossip"; "npc"; "bartender";
                "barkeep"; "innkeeper"]).

Definition mechanicsPattern : Re :=
  whole (alts [ lit "advantage"; lit "disadvantage"; lit "speed"; lit "cannot";
                seqs [lit "can"; opt (lit "'"); lit "t"]; lit "no reactions"; lit "bonus";
                lit "penalty"; lit "halved"; lit "incapacitated"; lit "attack roll";
                lit "saving throw"; lit "ability check"; lit "ac"; lit "damage";
                lit "restrained"; lit "stunned"; lit "poisoned"; lit "grappled"; lit "prone";
                lit "blinded"; lit "deafened"; lit "paralyzed"; lit "unconscious";
                lit "invisible"; lit "exhaustion"; lit "critical";
                seqs [lit "auto fail"; opt (lit "s")]; lit "fails" ]).

Definition triggerPattern : Re :=
  whole (words ["save"; "spell"; "hit"; "damage"; "failed"; "success"; "check"; "dc";
                "poison"; "venom"; "curse"; "ritual"; "artifact"; "touch"; "round"; "turn";
                "start"; "end"; "after"; "when"; "on"; "critical"]).

Definition validDuration : list string := ["rounds"; "minutes"; "scene"; "until_removed"].

Record StatusDefinition : Type := {
  def_name : jstring;
  def_type : StatusType;
  def_mechanics : string;
  def_modifiers : StatusModifiers;
  def_restrictions : StatusRestrictions;
  def_narrationCues : list string;
  def_dot : option (string * string)
}.

Definition define (n : string) (t : StatusType) (m : string) (mods : StatusModifiers)
    (r : StatusRestrictions) (cues : list string) : StatusDefinition :=
  {| def_name := str n; def_type := t; def_mechanics := m; def_modifiers := mods;
     def_restrictions := r; def_narrationCues := cues; def_dot := None |}.

Definition frozen : StatusRestrictions :=
  [("canAct", Flag false); ("canMove", Flag false); ("canSpeak", Flag false);
   ("reactionsAllowed", Flag false)].

Definition baseDefinitions : list (string * StatusDefinition) :=
  [ ("poisoned",
     define "Poisoned" debuff "Disadvantage on attack rolls and ability checks."
       [("attackRolls", "dis"); ("abilityChecks", "dis")] []
       ["nausea"; "shaky hands"; "sweat"; "slowed reactions"]);
    ("blinded",
     define "Blinded" debuff
       "Automatically fails sight-based checks. Attack rolls against you have advantage. Your attack rolls have disadvantage."
       [("perceptionSight", "auto-fail"); ("attackRolls", "dis (self); attackers adv")]
       [("special", Note "Cannot target by sight unless guessing location.")]
       ["darkness"; "blur"; "hands searching"; "missteps"]);
    ("charmed",
     define "Charmed" debuff
       "Cannot willingly attack the charmer. Charmer has advantage on social checks vs you."
       [("actionAvailability", "cannot harm charmer")]
       [("cannotTargetCharmer", Flag true)]
       ["softened tone"; "trusting posture"; "rationalizing requests"]);
    ("frightened",
     define "Frightened" debuff
       "Disadvantage on attack rolls and ability checks while source is in sight. Cannot willingly move closer."
       [("attackRolls", "dis (source in sight)"); ("abilityChecks", "dis (source in sight)")]
       [("cannotApproachSource", Flag true)]
       ["tight breath"; "tunnel vision"; "instinct to flee"]);
    ("paralyzed",
     define "Paralyzed" debuff
       "Incapacitated; cannot move or speak. Automatically fails STR/DEX saves. Attackers have advantage; melee hits within 5 ft are critical."
       [("savingThrows", "STR/DEX auto-fail");
        ("attackRolls", "attackers adv; melee crit within 5 ft")]
       frozen
       ["frozen muscles"; "wide eyes"; "no response"]);
    ("restrained",
     define "Restrained" debuff
       "Speed 0. Attack rolls against you have advantage. Your attack rolls have disadvantage. Disadvantage on DEX saves."
       [("movementSpeed", "0"); ("attackRolls", "dis (self); attackers adv");
        ("savingThrows", "DEX dis")]
       [("canMove", Flag false); ("special", Note "Can attempt escape.")]
       ["bindings bite"; "dragged posture"; "limited swings"]);
    ("stunned",
     define "Stunned" debuff
       "Incapacitated; cannot move. Automatically fails STR/DEX saves. Attackers have advantage."
       [("savingThrows", "STR/DEX auto-fail"); ("attackRolls", "attackers adv")]
       [("canAct", Flag false); ("canMove", Flag false); ("reactionsAllowed", Flag false)]
       ["ringing ears"; "blank stare"; "delayed responses"]);
    ("unconscious",
     define "Unconscious" debuff
       "Incapacitated and prone. Automatically fails STR/DEX saves. Attackers have advantage; melee hits within 5 ft are critical."
       [("savingThrows", "STR/DEX auto-fail");
        ("attackRolls", "attackers adv; melee crit within 5 ft")]
       frozen
       ["collapse"; "slack limbs"; "shallow breath"]);
    ("invisible",
     define "Invisible" buff
       "Cannot be seen without special senses. Your attack rolls have advantage. Attack rolls against you have disadvantage."
       [("attackRolls", "adv (self); attackers dis")]
       [("special", Note "Still detectable by sound or tracks.")]
       ["outline vanishes"; "footsteps remain"; "air shifts"]);
    ("inspired",
     define "Inspired" buff "Gain advantage on one chosen roll. Consumed on use."
       [("attackRolls", "adv (one roll)"); ("abilityChecks", "adv (one roll)");
        ("savingThrows", "adv (one roll)")]
       [("special", Note "Consumed on use.")]
       ["surge of confidence"; "clear focus"; "steady hands"]);
    ("blessed",
     define "Blessed" buff "Add 1d4 to attack rolls and saving throws."
       [("attackRolls", "+1d4"); ("savingThrows", "+1d4")] []
       ["faint glow"; "calm certainty"; "guided motion"]);
    ("cursed",
     define "Cursed" debuff "Disadvantage on specified rolls or saves, defined by the curse."
       [("abilityChecks", "dis (specified)"); ("savingThrows", "dis (specified)")]
       [("special", Note "Curse may include compulsion or aversion.")]
       ["cold weight"; "bad luck"; "uneasy whispers"]);
    ("bleeding",
     {| def_name := str "Bleeding"; def_type := debuff;
        def_mechanics :=
          "Take damage at start of each turn. Severe bleeding imposes CON check disadvantage.";
        def_modifiers := [("abilityChecks", "CON dis (severe)")];
        def_restrictions := [("special", Note "May limit recovery until treated.")];
        def_narrationCues := ["dripping blood"; "dizziness"; "stained clothes"];
        def_dot := Some ("startOfTurn", "1d4") |});
    ("madness",
     define "Madness" debuff
       "Disadvantage on WIS and CHA checks. Under stress, WIS saves may be required."
       [("abilityChecks", "WIS/CHA dis"); ("savingThrows", "WIS dis (under stress)")]
       [("special", Note "May lose action on failed stress save.")]
       ["intrusive thoughts"; "paranoia"; "dissociation"]);
    ("fear",
     define "Fear" debuff
       "When confronting the fear trigger, make a WIS save or become Frightened for the scene."
       [("savingThrows", "WIS save on trigger")]
       [("special", Note "Avoidance behavior unless save succeeds.")]
       ["flashbacks"; "freezing"; "shaky voice"]);
    ("corruption",
     define "Corruption" debuff
       "Progressive debuff to WIS/CHA with hallucination or impulse triggers at higher tiers."
       [("savingThrows", "WIS penalty by tier"); ("abilityChecks", "WIS/CHA dis at tier 2+")]
       [("special", Note "At high tier, failed WIS save can force impulse action.")]
       ["dark veins"; "whispers"; "cravings"; "distorted reflections"]);
    ("exhaustion",
     define "Exhaustion" debuff "Exhaustion level effects apply per tier." [] []
       ["heavy limbs"; "shaking"; "collapse"]) ].

Definition exhaustionLevels : list (Z * StatusModifiers) :=
  [ (1, [("abilityChecks", "dis")]);
    (2, [("movementSpeed", "0.5x")]);
    (3, [("attackRolls", "dis"); ("savingThrows", "dis")]);
    (4, [("hpMax", "0.5x")]);
    (5, [("movementSpeed", "0"); ("actionAvailability", "cannot move")]);
    (6, [("actionAvailability", "dead")]) ].

Definition levelModifiers (level : Z) : option StatusModifiers :=
  snd <$> List.find (fun e => fst e =? level) exhaustionLevels.

(** The digits of an integer, as a template literal prints it. *)
Definition showZ (z : Z) : jstring := str (pretty z).

(** [buildStatusDefinition(normalizedId, severity)]; the tables above always
    hold [exhaustion] and [corruption]. *)
Definition buildStatusDefinition (normalizedId : jstring) (sev : option Z)
    : option StatusDefinition :=
  if jeqb normalizedId (str "exhaustion") then
    base ← lookup (str "exhaustion") baseDefinitions;
    let level := default 1 sev in
    Some {| def_name := str "Exhaustion (Level " ++ showZ level ++ str ")";
            def_type := def_type base;
            def_mechanics :=
              "Level 1: ability checks disadvantage. Level 2: speed halved. Level 3: attack rolls and saves disadvantage. Level 4: HP max halved. Level 5: speed 0. Level 6: death.";
            def_modifiers := default (def_modifiers base) (levelModifiers level);
            def_restrictions :=
              if 6 <=? level then frozen
              else if 5 <=? level then [("canMove", Flag false)]
              else [];
            def_narrationCues := def_narrationCues base;
            def_dot := def_dot base |}
  else if jeqb normalizedId (str "corruption") then
    base ← lookup (str "corruption") baseDefinitions;
    let tier := default 1 sev in
    Some {| def_name := str "Corruption (Tier " ++ showZ tier ++ str ")";
            def_type := def_type base;
            def_mechanics := def_mechanics base;
            def_modifiers :=
              if tier =? 1 then [("savingThrows", "WIS -1 (or dis once per scene)")]
              else if tier =? 2
              then [("abilityChecks", "WIS/CHA dis"); ("savingThrows", "WIS dis on trigger")]
              else [("abilityChecks", "WIS/CHA dis"); ("savingThrows", "WIS dis");
                    ("damage", "impulse risk")];
            def_restrictions :=
              if 3 <=? tier
              then [("special", Note "On failed WIS save, DM may force one harmful impulse.")]
              else def_restrictions base;
            def_narrationCues := def_narrationCues base;
            def_dot := def_dot base |}
  else lookup normalizedId baseDefinitions.

(** The level of an exhaustion entry or the tier of a corruption entry: the
    first number written in the id, else in the name, else the severity. *)
Definition rank (rawId rawName : jstring) (sev : option Z) : option Z :=
  match firstNumber rawId with
  | Some n => Some (Z.of_N n)
  | None =>
    match firstNumber rawName with
    | Some n => Some (Z.of_N n)
    | None => sev
    end
  end.

Definition normalizeEntry (entry : option Proposal) : option StatusEffect :=
  e ← entry;
  i ← present (p_id e);
  n ← present (p_name e);
  m ← present (p_mechanics e);
  let rawId := toLowerCase (trim i) in
  let rawName := trim n in
  let mech := trim m in
  let trig := trim (default [] (p_trigger e)) in
  let cur := trim (default [] (p_cure e)) in
  if jeqb rawId [] || jeqb rawName [] || jeqb mech [] || jeqb trig [] || jeqb cur [] then None
  else if test socialOrScenePattern rawName || test socialOrScenePattern mech
          || test socialOrScenePattern trig || test socialOrScenePattern cur then None
  else if negb (test mechanicsPattern mech) then None
  else if negb (test triggerPattern trig) then None
  else
    durationType ← present (p_durationType e);
    if negb (existsb (fun d => jeqb (str d) durationType) validDuration) then None
    else
      let durationValue := p_durationValue e in
      let sev := Qfloor <$> p_severity e in
      picked ←
        (if startsWith rawId (str "exhaustion") || test (lit "exhaustion") rawName then
           match rank rawId rawName sev with
           | Some level =>
             if (level =? 0) || (level <? 1) || (6 <? level) then None
             else Some (str "exhaustion", Some level)
           | None => None
           end
         else if startsWith rawId (str "corruption") || test (lit "corruption") rawName then
           match rank rawId rawName sev with
           | Some tier =>
             if (tier =? 0) || (tier <? 1) || (3 <? tier) then None
             else Some (str "corruption", Some tier)
           | None => None
           end
         else
           canonical ← lookup rawId canonicalStatusMap;
           Some (str (fst (fst canonical)), sev));
      let '(normalizedId, normalizedSeverity) := picked in
      definition ← buildStatusDefinition normalizedId normalizedSeverity;
      Some {| id := normalizedId;
              name := def_name definition;
              type := def_type definition;
              mechanics := str (def_mechanics definition);
              trigger := trig;
              modifiers := def_modifiers definition;
              restrictions := def_restrictions definition;
              narrationCues := def_narrationCues definition;
              duration := (durationType, durationValue);
              cure := cur;
              source := present (p_source e);
              severity := normalizedSeverity;
              appliedAt := p_appliedAt e |}.

Definition normalizeRemove (entry : option Removal) : option jstring :=
  match entry with
  | Some (ById s) => present (Some s)
  | Some (ByObject i) => present i
  | None => None
  end.

(** [array.map(f).filter(Boolean)] *)
Fixpoint mapKeep {A B : Type} (f : A -> option B) (l : list A) : list B :=
  match l with
  | [] => []
  | x :: rest =>
    match f x with
    | Some y => y :: mapKeep f rest
    | None => mapKeep f rest
    end
  end.

Definition normalizeStatusUpdate (payload : option Payload) (statusState : StatusStateInput)
    : StatusUpdatePayload :=
  let applyIn := default [] (payload ≫= apply) in
  let updateIn := default [] (payload ≫= update) in
  let removeIn := default [] (payload ≫= remove) in
  let activeIds : gset jstring :=
    list_to_set (map id (default [] (active_statuses statusState))) in
  let prunedApply :=
    List.filter
      (fun entry =>
         match entry with
         | Some e =>
           match present (p_id e), present (p_name e) with
           | Some _, Some _ => true
           | _, _ => false
           end
         | None => false
         end)
      applyIn in
  let prunedApply :=
    List.filter
      (fun entry =>
         match entry ≫= p_id with
         | Some i => negb (bool_decide (i ∈ activeIds))
         | None => true
         end)
      prunedApply in
  let prunedApply :=
    if (1 <? List.length prunedApply)%nat then firstn 1 prunedApply else prunedApply in
  {| out_apply := mapKeep normalizeEntry prunedApply;
     out_update := mapKeep normalizeEntry updateIn;
     out_remove := mapKeep normalizeRemove removeIn |}.

(** The ids of the fixed catalog. *)
Definition catalog : list jstring := map (fun e => str (fst e)) canonicalStatusMap.

(** The proposal of a poisoning that passes every textual check. *)
Definition poisoning (i : string) : Proposal :=
  {| p_id := Some (str i);
     p_name := Some (str "Poisoned");
     p_type := Some (str "condition");
     p_mechanics := Some (str "Disadvantage on attack rolls");
     p_trigger := Some (str "failed save against venom");
     p_durationType := Some (str "rounds");
     p_durationValue := Some (3 # 1)%Q;
     p_cure := Some (str "antidote");
     p_source := None;
     p_severity := None;
     p_appliedAt := None |}.

Definition proposing (e : Proposal) : option Payload :=
  Some {| apply := Some [Some e]; update := None; remove := None |}.

(** The statuses of a character on whom a first poisoning was applied. *)
Definition afflicted : list StatusEffect :=
  out_apply (normalizeStatusUpdate (proposing (poisoning "poisoned"))
               {| active_statuses := None |}).

End Status.

Module Combat.

(** *** Types of combatService.ts *)

Inductive CombatPhase : Type :=
  | starting | player_turn | enemy_turn | resolving | ended.

Inductive EntityType : Type := player | enemy.

Record Status : Type := { key : string; duration : Z }.

Record CombatEntity : Type := {
  ent_id : string;
  ent_type : EntityType;
  name : string;
  hp : Num;
  hp_max : Num;
  mp : option Num;
  mp_max : option Num;
  statuses : list Status
}.

Inductive CombatResult : Type := defeat | victory.

(** [Record<string, any>] payloads that the engine only passes through. *)
Definition Params : Type := list (string * JS.jstring).

(** [CombatEvent = { type, data }], one constructor per [type] the engine
    emits, carrying the fields of its [data]. *)
Inductive CombatEvent : Type :=
  | TURN_START (actor : string)
  | ATTACK_RESOLVED (actor target : string) (hit : bool) (roll bonus total : Z)
      (critical fumble : bool) (ac : Z)
  | DAMAGE_APPLIED (target : string) (amount : Z) (source : string) (remaining_hp : Num)
  | ENEMY_DEFEATED (target : string)
  | STATUS_APPLIED (target status_key duration_label : string)
  | STATUS_REMOVED (target status_key : string)
  | ATTEMPT_ACTION (actor : string) (target : option string) (intent : string)
  | MOVE_RESOLVED (actor : string) (target : option string) (params : Params)
  | ITEM_USED (actor : string) (params : Params)
  | SPELL_CAST (actor : string) (params : Params)
  | COMBAT_ENDED (result : CombatResult).

Record CombatState : Type := {
  battle_id : string;
  phase : CombatPhase;
  round : Z;
  turn_index : Z;
  initiative_order : list string;
  entities : list CombatEntity;
  log : list CombatEvent
}.

Inductive Action : Type := attack | defend | move | item | spell | attempt.

Record ActionIntent : Type := {
  action : Action;
  actor : string;
  target : option string;
  params : option Params;
  free_text : option string
}.

Record AttackRoll : Type := {
  roll_d20 : option Z;
  roll_bonus : option Z;
  roll_total : option Z
}.

(** [playerSnapshot]: each property is [Some] when it is a number for
    [typeof], [NaN] included. *)
Record Snapshot : Type := { snap_hp : option Num; snap_mp : option Num }.

(** What a call works on: the battle [state], the [events] array it fills,
    and how many draws of the entropy source were consumed. *)
Record Ctx : Type := {
  state : CombatState;
  events : list CombatEvent;
  drawn : nat
}.

(** *** Field updates *)

Definition set_hp (v : Num) (e : CombatEntity) : CombatEntity :=
  {| ent_id := ent_id e; ent_type := ent_type e; name := name e; hp := v;
     hp_max := hp_max e; mp := mp e; mp_max := mp_max e; statuses := statuses e |}.

Definition set_mp (v : Num) (e : CombatEntity) : CombatEntity :=
  {| ent_id := ent_id e; ent_type := ent_type e; name := name e; hp := hp e;
     hp_max := hp_max e; mp := Some v; mp_max := mp_max e; statuses := statuses e |}.

Definition set_statuses (l : list Status) (e : CombatEntity) : CombatEntity :=
  {| ent_id := ent_id e; ent_type := ent_type e; name := name e; hp := hp e;
     hp_max := hp_max e; mp := mp e; mp_max := mp_max e; statuses := l |}.

Definition set_entities (l : list CombatEntity) (s : CombatState) : CombatState :=
  {| battle_id := battle_id s; phase := phase s; round := round s;
     turn_index := turn_index s; initiative_order := initiative_order s;
     entities := l; log := log s |}.

Definition set_phase (p : CombatPhase) (s : CombatState) : CombatState :=
  {| battle_id := battle_id s; phase := p; round := round s;
     turn_index := turn_index s; initiative_order := initiative_order s;
     entities := entities s; log := log s |}.

Definition set_round (r : Z) (s : CombatState) : CombatState :=
  {| battle_id := battle_id s; phase := phase s; round := r;
     turn_index := turn_index s; initiative_order := initiative_order s;
     entities := entities s; log := log s |}.

Definition set_log (l : list CombatEvent) (s : CombatState) : CombatState :=
  {| battle_id := battle_id s; phase := phase s; round := round s;
     turn_index := turn_index s; initiative_order := initiative_order s;
     entities := entities s; log := l |}.

Definition push (evs : list CombatEvent) (c : Ctx) : Ctx :=
  {| state := state c; events := events c ++ evs; drawn := drawn c |}.

Definition with_state (f : CombatState -> CombatState) (c : Ctx) : Ctx :=
  {| state := f (state c); events := events c; drawn := drawn c |}.

Definition draw (c : Ctx) : Ctx :=
  {| state := state c; events := events c; drawn := S (drawn c) |}.

(** *** Predicates used by the [find]/[filter]/[some] calls *)

Definition is_player (e : CombatEntity) : bool :=
  match ent_type e with player => true | enemy => false end.

Definition has_id (i : string) (e : CombatEntity) : bool := String.eqb (ent_id e) i.

Definition living_enemy (e : CombatEntity) : bool :=
  negb (is_player e) && Num.ltb 0 (hp e).

Definition has_key (k : string) (s : Status) : bool := String.eqb (key s) k.

(** *** The engine *)

(** [rollDie = faces => Math.floor(Math.random() * faces) + 1] *)
Definition rollDie (faces : Z) (u : Unit01) : Z := floorTimes u faces + 1.

(** [clamp = (value, min, max) => Math.max(min, Math.min(max, value))] *)
Definition clamp (value min max : Num) : Num := Num.max min (Num.min max value).

(** [state.log = [...state.log, ...events].slice(-20)] *)
Definition appendLog (s : CombatState) (evs : list CombatEvent) : CombatState :=
  set_log (sliceLast 20 (log s ++ evs)) s.

Definition startBattle (campaignId : string) (p : CombatEntity)
    (enemies : list CombatEntity) : CombatState :=
  appendLog
    {| battle_id := String.append campaignId "-battle";
       phase := player_turn;
       round := 1;
       turn_index := 0;
       initiative_order := ent_id p :: map ent_id enemies;
       entities := p :: enemies;
       log := [] |}
    [TURN_START (ent_id p)].

Section WithEntropy.

(** The results of the successive [Math.random()] calls. *)
Variable rnd : nat -> Unit01.

(** The constants of [resolveAttack], in the order the function binds them. *)

(** [d20]: the supplied value when it is a number, a fresh d20 otherwise. *)
Definition d20Of (attackRoll : option AttackRoll) (u : Unit01) : Z :=
  default (rollDie 20 u) (attackRoll ≫= roll_d20).

Definition bonusOf (attackRoll : option AttackRoll) (d20 : Z) : Z :=
  match attackRoll ≫= roll_bonus with
  | Some b => b
  | None =>
    match attackRoll ≫= roll_total with
    | Some t => t - d20
    | None => 0
    end
  end.

Definition totalOf (attackRoll : option AttackRoll) (d20 bonus : Z) : Z :=
  default (d20 + bonus) (attackRoll ≫= roll_total).

(** [hit = critical ? true : fumble ? false : total >= ac] *)
Definition hitOf (critical fumble : bool) (total ac : Z) : bool :=
  if critical then true else if fumble then false else ac <=? total.

(** [baseDamage = attacker.type === 'player' ? rollDie(8) + 2 : rollDie(6) + 1] *)
Definition baseDamageOf (attackerType : EntityType) (u : Unit01) : Z :=
  match attackerType with
  | player => rollDie 8 u + 2
  | enemy => rollDie 6 u + 1
  end.

(** [damage]: doubled on a critical, then halved (at least 1) against a
    player target that carries a ['defending'] status. *)
Definition damageOf (tgt : CombatEntity) (critical : bool) (baseDamage : Z) : Z :=
  let damage := if critical then baseDamage * 2 else baseDamage in
  match ent_type tgt with
  | player =>
    match List.find (has_key "defending") (statuses tgt) with
    | Some _ => Z.max 1 (damage / 2)
    | None => damage
    end
  | enemy => damage
  end.

Definition resolveAttack (intent : ActionIntent) (attackRoll : option AttackRoll)
    (c : Ctx) : Ctx :=
  match truthy (target intent) with
  | None => c
  | Some targetId =>
    match List.find (has_id (actor intent)) (entities (state c)),
          List.find (has_id targetId) (entities (state c)) with
    | Some attacker, Some tgt =>
      let d20 := d20Of attackRoll (rnd (drawn c)) in
      let c := match attackRoll ≫= roll_d20 with Some _ => c | None => draw c end in
      let bonus := bonusOf attackRoll d20 in
      let total := totalOf attackRoll d20 bonus in
      let critical := d20 =? 20 in
      let fumble := d20 =? 1 in
      let ac := 10 in
      let hit := hitOf critical fumble total ac in
      let c := push [ATTACK_RESOLVED (ent_id attacker) (ent_id tgt) hit d20 bonus total
                       critical fumble ac] c in
      if hit then
        let baseDamage := baseDamageOf (ent_type attacker) (rnd (drawn c)) in
        let c := draw c in
        let damage := damageOf tgt critical baseDamage in
        let new_hp := clamp (Num.sub (hp tgt) damage) 0 (hp_max tgt) in
        let c := with_state
                   (fun s => set_entities
                               (updateFirst (has_id targetId) (set_hp new_hp) (entities s)) s) c in
        let c := push [DAMAGE_APPLIED (ent_id tgt) damage (ent_id attacker) new_hp] c in
        if Num.eqb new_hp 0 then push [ENEMY_DEFEATED (ent_id tgt)] c else c
      else c
    | _, _ => c
    end
  end.

Definition resolveDefend (intent : ActionIntent) (c : Ctx) : Ctx :=
  match List.find (has_id (actor intent)) (entities (state c)) with
  | None => c
  | Some who =>
    let c :=
      match List.find (has_key "defending") (statuses who) with
      | Some _ => c
      | None =>
        with_state
          (fun s => set_entities
                      (updateFirst (has_id (actor intent))
                         (fun e => set_statuses
                                     (statuses e ++ [{| key := "defending"; duration := 1 |}]) e)
                         (entities s)) s) c
      end in
    push [STATUS_APPLIED (ent_id who) "defending" "turn"] c
  end.

Definition resolveAttempt (intent : ActionIntent) (c : Ctx) : Ctx :=
  push [ATTEMPT_ACTION (actor intent) (truthy (target intent))
          (default "" (free_text intent))] c.

(** The statuses an entity keeps: each duration lowered by one, those still
    positive retained. *)
Definition remainingStatuses (l : list Status) : list Status :=
  List.filter (fun s => 0 <? duration s)
    (map (fun s => {| key := key s; duration := duration s - 1 |}) l).

(** The [STATUS_REMOVED] events of one entity: one per status whose key is no
    longer among the remaining ones. *)
Definition removedEvents (e : CombatEntity) : list CombatEvent :=
  let remaining := remainingStatuses (statuses e) in
  flat_map
    (fun s =>
       match List.find (has_key (key s)) remaining with
       | Some _ => []
       | None => [STATUS_REMOVED (ent_id e) (key s)]
       end)
    (statuses e).

(** [clearExpiredStatuses(entity, events)] on one entity: what it pushes and
    the entity it leaves. *)
Definition clearExpiredStatuses (e : CombatEntity) : list CombatEvent * CombatEntity :=
  (removedEvents e, set_statuses (remainingStatuses (statuses e)) e).

(** The callback of [enemies.forEach] in [resolveEnemyTurn]. *)
Definition enemyAttack (p : CombatEntity) (c : Ctx) (foe : CombatEntity) : Ctx :=
  resolveAttack
    {| action := attack; actor := ent_id foe; target := Some (ent_id p);
       params := None; free_text := None |}
    None
    (push [TURN_START (ent_id foe)] c).

Definition resolveEnemyTurn (c : Ctx) : Ctx :=
  match List.find is_player (entities (state c)) with
  | None => c
  | Some p =>
    let enemies := List.filter living_enemy (entities (state c)) in
    let c := fold_left (enemyAttack p) enemies c in
    push [TURN_START (ent_id p)] c
  end.

Definition checkCombatEnd (c : Ctx) : bool * Ctx :=
  let p := List.find is_player (entities (state c)) in
  let enemiesAlive := existsb living_enemy (entities (state c)) in
  if match p with None => true | Some p => Num.leb (hp p) 0 end then
    (true, push [COMBAT_ENDED defeat] (with_state (set_phase ended) c))
  else if negb enemiesAlive then
    (true, push [COMBAT_ENDED victory] (with_state (set_phase ended) c))
  else (false, c).

(** [state.entities.forEach(entity => clearExpiredStatuses(entity, events))] *)
Definition clearAll (c : Ctx) : Ctx :=
  push (flat_map (fun e => fst (clearExpiredStatuses e)) (entities (state c)))
    (with_state (fun s => set_entities (map (fun e => snd (clearExpiredStatuses e)) (entities s)) s) c).

(** The player snapshot applied at the top of [resolveAction]. *)
Definition applySnapshot (snap : option Snapshot) (s : CombatState) : CombatState :=
  match snap, List.find is_player (entities s) with
  | Some sn, Some _ =>
    let s :=
      match snap_hp sn with
      | Some v =>
        set_entities (updateFirst is_player (fun e => set_hp (clamp v 0 (hp_max e)) e) (entities s)) s
      | None => s
      end in
    match snap_mp sn with
    | Some v =>
      set_entities
        (updateFirst is_player
           (fun e =>
              match mp e, mp_max e with
              | Some _, Some m => set_mp (clamp v 0 m) e
              | _, _ => e
              end)
           (entities s)) s
    | None => s
    end
  | _, _ => s
  end.

(** The [switch (intent.action)] of [resolveAction]. *)
Definition dispatch (intent : ActionIntent) (attackRoll : option AttackRoll) (c : Ctx) : Ctx :=
  match action intent with
  | attack => resolveAttack intent attackRoll c
  | defend => resolveDefend intent c
  | move => push [MOVE_RESOLVED (actor intent) (truthy (target intent))
                    (default [] (params intent))] c
  | item => push [ITEM_USED (actor intent) (default [] (params intent))] c
  | spell => push [SPELL_CAST (actor intent) (default [] (params intent))] c
  | attempt => resolveAttempt intent c
  end.

(** The closing block of [resolveAction]:
    [if (!checkCombatEnd(state, events)) { ... checkCombatEnd(state, events) }]. *)
Definition turnCycle (c : Ctx) : Ctx :=
  match checkCombatEnd c with
  | (true, c) => c
  | (false, c) =>
    let c := with_state (set_phase enemy_turn) c in
    let c := resolveEnemyTurn c in
    let c := with_state (fun s => set_round (round s + 1) s) c in
    let c := with_state (set_phase player_turn) c in
    let c := clearAll c in
    snd (checkCombatEnd c)
  end.

Definition resolveAction (battles : gmap string CombatState) (campaignId : string)
    (intent : ActionIntent) (playerSnapshot : option Snapshot)
    (attackRoll : option AttackRoll) (drawn0 : nat)
    : Outcome (gmap string CombatState * (CombatState * list CombatEvent) * nat) :=
  match battles !! campaignId with
  | None => Thrown "Battle not found"
  | Some s =>
    let s := applySnapshot playerSnapshot s in
    let c := {| state := s; events := [TURN_START (actor intent)]; drawn := drawn0 |} in
    let c := dispatch intent attackRoll c in
    let c := turnCycle c in
    let s := appendLog (state c) (events c) in
    Returned (<[campaignId := s]> battles, (s, events c), drawn c)
  end.

End WithEntropy.

(** *** Vocabulary for the properties *)

(** The invariant of the data model: [0 <= hp <= hp_max]. *)
Definition hp_in_range (e : CombatEntity) : Prop :=
  Num.le 0 (hp e) /\ Num.le (hp e) (hp_max e).

(** An entity "with an active defending status". *)
Definition isDefending (e : CombatEntity) : bool :=
  existsb (fun st => String.eqb (key st) "defending") (statuses e).

(** The events [resolveAttack] can push. *)
Definition is_attack_event (ev : CombatEvent) : bool :=
  match ev with
  | ATTACK_RESOLVED _ _ _ _ _ _ _ _ _ | DAMAGE_APPLIED _ _ _ _ | ENEMY_DEFEATED _ => true
  | _ => false
  end.

Definition is_damage_event (ev : CombatEvent) : bool :=
  match ev with
  | DAMAGE_APPLIED _ _ _ _ | ENEMY_DEFEATED _ => true
  | _ => false
  end.

Definition is_status_removed (ev : CombatEvent) : bool :=
  match ev with STATUS_REMOVED _ _ => true | _ => false end.

(** The shape of the events of an enemy phase against the player [pid]: for
    each attacking enemy, in order, its [TURN_START], the resolution of its
    attack on [pid], and, when the attack hit, the damage applied and the
    defeat notice that follows hit points of 0. *)
Inductive enemy_phase_trace (pid : string) : list string -> list CombatEvent -> Prop :=
  | trace_done : enemy_phase_trace pid [] []
  | trace_attack (foe : string) (foes : list string) (hit : bool) (d20 bonus total : Z)
      (crit fumble : bool) (dealt rest : list CombatEvent) :
      (hit = false -> dealt = []) ->
      (hit = true ->
       exists amount left,
         dealt = DAMAGE_APPLIED pid amount foe left
                   :: (if Num.eqb left 0 then [ENEMY_DEFEATED pid] else [])) ->
      enemy_phase_trace pid foes rest ->
      enemy_phase_trace pid (foe :: foes)
        (TURN_START foe
           :: ATTACK_RESOLVED foe pid hit d20 bonus total crit fumble 10
           :: dealt ++ rest).

(** Two versions of an entity that differ at most in [hp]. *)
Definition same_but_hp (e e' : CombatEntity) : Prop := e' = set_hp (hp e') e.

(** Two versions of an entity, the later one keeping identity and [hp_max],
    and keeping [hp] within range if it was. *)
Definition keeps_range (e e' : CombatEntity) : Prop :=
  ent_id e' = ent_id e /\ hp_max e' = hp_max e /\ (hp_in_range e -> hp_in_range e').

(** The statuses of an entity carry pairwise distinct keys. Every battle the
    routes start has empty status lists, and [resolveDefend], the only place
    that adds a status, adds ['defending'] only when it is absent. *)
Definition distinct_keys (e : CombatEntity) : Prop := List.NoDup (map key (statuses e)).

(** Two versions of an entity, the later one having distinct status keys if
    the earlier one had. *)
Definition keeps_keys (e e' : CombatEntity) : Prop := distinct_keys e -> distinct_keys e'.

(** The end-of-combat verdict on a roster. *)
Definition verdict (l : list CombatEntity) : option CombatResult :=
  match List.find is_player l with
  | None => Some defeat
  | Some p =>
    if Num.leb (hp p) 0 then Some defeat
    else if existsb living_enemy l then None else Some victory
  end.

(** *** The specification's words *)

(** "Every entity's statuses are decremented by 1 and any reaching
    duration <= 0 are removed": the statuses that outlast the cycle, each
    with one turn less, and the statuses that do not. *)
Definition outlasting (l : list Status) : list Status :=
  map (fun st => {| key := key st; duration := duration st - 1 |})
    (List.filter (fun st => 1 <? duration st) l).

Definition expiring (l : list Status) : list Status :=
  List.filter (fun st => duration st <=? 1) l.

(** The entity after the decay. *)
Definition aged (e : CombatEntity) : CombatEntity :=
  set_statuses (outlasting (statuses e)) e.

(** "(emitting STATUS_REMOVED)": one notice per status of the entity, in
    order, whose key no status that outlasts the cycle carries. *)
Definition notices (e : CombatEntity) : list CombatEvent :=
  map (fun st => STATUS_REMOVED (ent_id e) (key st))
    (List.filter
       (fun st => negb (existsb (fun kept => String.eqb (key kept) (key st))
                          (outlasting (statuses e))))
       (statuses e)).

(** "defend: adds a defending status with duration 1 turn if not already
    present". *)
Definition braced (e : CombatEntity) : CombatEntity :=
  if isDefending e then e
  else set_statuses (statuses e ++ [{| key := "defending"; duration := 1 |}]) e.

(** The attack an enemy makes in its turn: on the player, with dice of its
    own. *)
Definition assault (foe pid : string) : ActionIntent :=
  {| action := attack; actor := foe; target := Some pid; params := None; free_text := None |}.

(** The dispatch on [intent.action], action by action: the context [c']
    that the player's action makes of [c]. *)
Definition performs (rnd : nat -> Unit01) (intent : ActionIntent)
    (roll : option AttackRoll) (c c' : Ctx) : Prop :=
  match action intent with
  | attack => c' = resolveAttack rnd intent roll c
  | defend =>
    drawn c' = drawn c
    /\ let named := fun e => String.eqb (ent_id e) (actor intent) in
       match List.find named (entities (state c)) with
       | Some who =>
         events c' = events c ++ [STATUS_APPLIED (ent_id who) "defending" "turn"]
         /\ state c' =
              set_entities (updateFirst named braced (entities (state c))) (state c)
       | None => events c' = events c /\ state c' = state c
       end
  | move =>
    c' = push [MOVE_RESOLVED (actor intent) (truthy (target intent))
                 (default [] (params intent))] c
  | item => c' = push [ITEM_USED (actor intent) (default [] (params intent))] c
  | spell => c' = push [SPELL_CAST (actor intent) (default [] (params intent))] c
  | attempt =>
    c' = push [ATTEMPT_ACTION (actor intent) (truthy (target intent))
                 (default "" (free_text intent))] c
  end.

(** "Every living enemy": the entities of type enemy whose hit points are
    above 0, in roster order. *)
Definition livingEnemies (l : list CombatEntity) : list CombatEntity :=
  List.filter
    (fun e => match ent_type e, hp e with
              | enemy, Int points => 0 <? points
              | _, _ => false
              end) l.

(** The enemy phase against the player [pid]: each enemy of [foes] in
    turn announces itself and attacks, starting from the context the
    previous one left. *)
Definition enemyPhase (rnd : nat -> Unit01) (pid : string) (foes : list CombatEntity)
    (c : Ctx) : Ctx :=
  fold_left
    (fun c foe => resolveAttack rnd (assault (ent_id foe) pid) None
                    (push [TURN_START (ent_id foe)] c))
    foes c.

(** The battle that a call leaves when the combat went on after the
    player's action: the roster [final], one round later, at the phase the
    last end check decides, with the events of the call appended to the
    log. *)
Definition nextRound (s : CombatState) (final : list CombatEntity)
    (evs : list CombatEvent) : CombatState :=
  {| battle_id := battle_id s;
     phase := match verdict final with Some _ => ended | None => player_turn end;
     round := round s + 1;
     turn_index := turn_index s;
     initiative_order := initiative_order s;
     entities := final;
     log := sliceLast 20 (log s ++ evs) |}.

(** *** Battles in order *)

(** Who the entities of a roster are: type and id, in roster order. *)
Definition cast (l : list CombatEntity) : list (EntityType * string) :=
  map (fun e => (ent_type e, ent_id e)) l.

(** The player of a roster, when there is one, has a non-empty id. *)
Definition player_named (l : list CombatEntity) : Prop :=
  forall hero, List.find is_player l = Some hero -> ent_id hero <> "".

(** A battle in order: the status keys of each entity are distinct, and the
    player has a non-empty id. *)
Definition in_order (b : CombatState) : Prop :=
  Forall distinct_keys (entities b) /\ player_named (entities b).

End Combat.

(** ** The [/dm-response] route (diceRoutes.ts): pending checks *)

Module Routes.
Import JS.

Inductive CheckType : Type :=
  | attack | skill | save | contest | perception | social | stealth | magic.

Inductive Difficulty : Type :=
  | opposed
  | dc (n : Q).

Inductive IntentAction : Type := act_attack | act_attempt | act_talk.

(** The [ActionIntent] of this file, as far as the route reads it. *)
Record ActionIntent : Type := {
  action : IntentAction;
  target : option string;
  tags : list jstring
}.

Record PendingCheck : Type := {
  pc_id : string;
  pc_type : CheckType;
  pc_actor : string;
  pc_target : option string;
  pc_targetLabel : option string;
  pc_stat : jstring;
  pc_difficulty : Difficulty;
  pc_context : jstring;
  pc_reason : jstring;
  pc_actionLabel : option jstring;
  pc_domain : option jstring;
  pc_skill : option jstring;
  pc_intentType : option string;
  pc_intent : option ActionIntent
}.

Definition with_intent (i : ActionIntent) (c : PendingCheck) : PendingCheck :=
  {| pc_id := pc_id c; pc_type := pc_type c; pc_actor := pc_actor c;
     pc_target := pc_target c; pc_targetLabel := pc_targetLabel c; pc_stat := pc_stat c;
     pc_difficulty := pc_difficulty c; pc_context := pc_context c;
     pc_reason := pc_reason c; pc_actionLabel := pc_actionLabel c;
     pc_domain := pc_domain c; pc_skill := pc_skill c; pc_intentType := pc_intentType c;
     pc_intent := Some i |}.

Record GameState : Type := {
  lastResolvedAction : option Intent.LastResolvedAction;
  turnIndex : option Z
}.

(** The [IntentDecision] the route works with, whether it came from the
    generative router or from the fallback. *)
Record Decision : Type := {
  primarySegmentId : string;
  d_intentType : option string;
  d_domain : option jstring;
  shouldRoll : option bool;
  d_stat : option jstring;
  d_skill : option jstring;
  d_dc : option Q;
  d_actionLabel : option jstring;
  narration : jstring
}.

Record RollResult : Type := {
  r_total : option Z;
  r_result : option Z;
  r_d20 : option Z;
  r_bonus : option Z
}.

Definition Participants : Type := list (option string * option jstring).

Record Request : Type := {
  playerAction : option jstring;
  characterName : option string;
  gameContext : option jstring;
  campaignId : option string;
  rollResult : option RollResult;
  pendingCheckId : option string;
  selectedTarget : option string;
  sceneParticipants : Participants;
  playerSnapshot : option Combat.Snapshot
}.

(** The same request without the two roll properties. *)
Definition without_roll (r : Request) : Request :=
  {| playerAction := playerAction r; characterName := characterName r;
     gameContext := gameContext r; campaignId := campaignId r;
     rollResult := None; pendingCheckId := None;
     selectedTarget := selectedTarget r; sceneParticipants := sceneParticipants r;
     playerSnapshot := playerSnapshot r |}.

(** The module-level maps of diceRoutes.ts and combatService.ts, and the
    number of [Math.random()] draws consumed so far. *)
Record Server : Type := {
  pendingChecks : gmap string PendingCheck;
  gameStateByCampaign : gmap string GameState;
  battles : gmap string Combat.CombatState;
  drawn : nat
}.

Definition set_pending (m : gmap string PendingCheck) (s : Server) : Server :=
  {| pendingChecks := m; gameStateByCampaign := gameStateByCampaign s;
     battles := battles s; drawn := drawn s |}.

Definition set_game (m : gmap string GameState) (s : Server) : Server :=
  {| pendingChecks := pendingChecks s; gameStateByCampaign := m;
     battles := battles s; drawn := drawn s |}.

Definition set_battles (m : gmap string Combat.CombatState) (n : nat) (s : Server) : Server :=
  {| pendingChecks := pendingChecks s; gameStateByCampaign := gameStateByCampaign s;
     battles := m; drawn := n |}.

(** What the collaborators outside the core answer during one request;
    [None] stands for a rejected promise. [ext_checkId] is the id that
    [generateCheckId] makes from the clock and a random suffix of its own,
    [ext_now] the reading of [Date.now()]. *)
Record External : Type := {
  ext_decision : option Decision;
  ext_checkId : string;
  ext_now : Z;
  ext_combatNarration : option string;
  ext_dm : option string
}.

Inductive Response : Type :=
  | BadRequest
  | CombatResolved (told : string) (battle : Combat.CombatState)
      (events : list Combat.CombatEvent)
  | Narrated (dm : string)
  | RollRequired (check : PendingCheck)
  | ServerError.

Definition hintName (h : Intent.SegmentHint) : string :=
  match h with
  | Intent.SPEECH => "SPEECH"
  | Intent.REQUEST => "REQUEST"
  | Intent.ACTION_NOW => "ACTION_NOW"
  | Intent.PAST_REF => "PAST_REF"
  | Intent.PLAN => "PLAN"
  | Intent.UNKNOWN => "UNKNOWN"
  end.

(** [updateLastResolvedAction]: the whole entry is replaced. *)
Definition updateLastResolvedAction (campaignKey : string) (next : Intent.LastResolvedAction)
    (s : Server) : Server :=
  set_game (<[campaignKey := {| lastResolvedAction := Some next; turnIndex := None |}]>
              (gameStateByCampaign s)) s.

(** [a || b] on texts. *)
Definition orElse (a : option jstring) (b : jstring) : jstring := default b (Status.present a).

Definition opponent (label : option string) : Combat.CombatEntity :=
  {| Combat.ent_id := "enemy-0"; Combat.ent_type := Combat.enemy;
     Combat.name := default "Enemy" (truthy label);
     Combat.hp := 12; Combat.hp_max := 12; Combat.mp := None; Combat.mp_max := None;
     Combat.statuses := [] |}.

Definition protagonist (who : option string) (points mana : Num) : Combat.CombatEntity :=
  {| Combat.ent_id := "player"; Combat.ent_type := Combat.player;
     Combat.name := default "Player" (truthy who);
     Combat.hp := points; Combat.hp_max := points;
     Combat.mp := Some mana; Combat.mp_max := Some mana;
     Combat.statuses := [] |}.

(** [campaignKey = campaignId || 'default'] *)
Definition keyOf (req : Request) : string := default "default" (truthy (campaignId req)).

(** [gameStateByCampaign.get(campaignKey) || { lastResolvedAction: null, turnIndex: 0 }] *)
Definition gameStateOf (campaignKey : string) (s : Server) : GameState :=
  default {| lastResolvedAction := None; turnIndex := Some 0 |}
    (gameStateByCampaign s !! campaignKey).

Definition is_stat (s : jstring) : bool :=
  existsb (fun k => jeqb (str k) s) ["STR"; "DEX"; "CON"; "INT"; "WIS"; "CHA"].

Section Handler.

(** The entropy source. *)
Variable rnd : nat -> Unit01.

(** Pure helpers of the route file whose results the pending-check
    bookkeeping only passes along; the properties hold whatever they
    compute. *)
Variable segmentMessage : jstring -> list Intent.Segment.
Variable classifyIntent :
  jstring -> option string -> Participants -> option jstring -> ActionIntent.
Variable resolveCheck : ActionIntent -> jstring -> option jstring -> option PendingCheck.
Variable summarizeActionText : jstring -> jstring.
Variable detectTarget : jstring -> Participants -> option string.
Variable resolveTargetLabel : option string -> Participants -> string.
Variable inferCombatProfile : jstring -> jstring * jstring * jstring.

Definition extractKeywords : jstring -> list jstring := Intent.extractKeywords.

(** [buildCombatCheck], with the intent [buildDecisionCheck] hands it. *)
Definition buildCombatCheck (checkId : string) (tgt : option string) (rawText : jstring)
    (who : Participants) : PendingCheck :=
  let '(profStat, profLabel, profAction) := inferCombatProfile rawText in
  {| pc_id := checkId;
     pc_type := attack;
     pc_actor := "player";
     pc_target := tgt;
     pc_targetLabel := Some (resolveTargetLabel tgt who);
     pc_stat := profStat;
     pc_difficulty := dc 10;
     pc_context := profLabel;
     pc_reason := profAction;
     pc_actionLabel := None;
     pc_domain := None;
     pc_skill := None;
     pc_intentType := None;
     pc_intent := Some {| action := act_attack; target := tgt; tags := [str "violence"] |} |}.

Definition buildDecisionCheck (checkId : string) (decision : Decision) (tgt : option string)
    (rawText : jstring) (who : Participants) : option PendingCheck :=
  let domain := toLowerCase (orElse (d_domain decision) []) in
  let intentType := default "UNKNOWN" (truthy (d_intentType decision)) in
  let statValue := toUpperCase (orElse (d_stat decision) []) in
  let stat := if is_stat statValue then Some statValue else None in
  let label := trim (orElse (d_actionLabel decision) []) in
  if jeqb domain (str "violence") then
    let combatCheck := buildCombatCheck checkId tgt rawText who in
    Some {| pc_id := pc_id combatCheck; pc_type := pc_type combatCheck;
            pc_actor := pc_actor combatCheck; pc_target := pc_target combatCheck;
            pc_targetLabel := pc_targetLabel combatCheck; pc_stat := pc_stat combatCheck;
            pc_difficulty := pc_difficulty combatCheck;
            pc_context := orElse (Some label) (pc_context combatCheck);
            pc_reason := pc_reason combatCheck;
            pc_actionLabel := Some label;
            pc_domain := Some domain;
            pc_skill := d_skill decision;
            pc_intentType := Some intentType;
            pc_intent := pc_intent combatCheck |}
  else
    match stat with
    | None => None
    | Some st =>
      let wording (fallback : string) :=
        orElse (Some label) (orElse (Some (summarizeActionText rawText)) (str fallback)) in
      if jeqb domain (str "social") || jeqb domain (str "stealth") then
        Some {| pc_id := checkId; pc_type := contest; pc_actor := "player";
                pc_target := Some (default "npc" tgt);
                pc_targetLabel := None; pc_stat := st;
                pc_difficulty := dc (default (13 # 1)%Q (d_dc decision));
                pc_context := wording "pressure the target";
                pc_reason := domain;
                pc_actionLabel := Some label;
                pc_domain := Some domain;
                pc_skill := d_skill decision;
                pc_intentType := Some intentType;
                pc_intent := None |}
      else
        Some {| pc_id := checkId;
                pc_type := if jeqb st (str "CON") then save else skill;
                pc_actor := "player";
                pc_target := tgt;
                pc_targetLabel := None; pc_stat := st;
                pc_difficulty := dc (default (12 # 1)%Q (d_dc decision));
                pc_context := wording "overcome the challenge";
                pc_reason := orElse (Some domain) (str "physical");
                pc_actionLabel := Some label;
                pc_domain := Some (orElse (Some domain) (str "physical"));
                pc_skill := d_skill decision;
                pc_intentType := Some intentType;
                pc_intent := None |}
    end.

(** The decision built by the route when the router gave none
    (lines 1475-1493). *)
Definition fallbackDecision (text : jstring) (context : option jstring)
    (segments : list Intent.Segment) (fallbackIntent : ActionIntent) : Decision :=
  let hinted (h : Intent.SegmentHint) (g : Intent.Segment) :=
    match Intent.hint g with Some h' => Intent.is_hint h' h | None => false end in
  let primarySegment :=
    match List.find (hinted Intent.REQUEST) segments with
    | Some g => Some g
    | None =>
      match List.find (hinted Intent.ACTION_NOW) segments with
      | Some g => Some g
      | None =>
        match List.find (fun g => negb (hinted Intent.PAST_REF g)) segments with
        | Some g => Some g
        | None => head segments
        end
      end
    end in
  let resolvedCheck := resolveCheck fallbackIntent text context in
  {| primarySegmentId := default "seg-1" (truthy (Intent.seg_id <$> primarySegment));
     d_intentType := Some (default "UNKNOWN" (hintName <$> (primarySegment ≫= Intent.hint)));
     d_domain :=
       Some (orElse (head (tags fallbackIntent))
               (match action fallbackIntent with
                | act_attack => str "violence"
                | _ => str "other"
                end));
     shouldRoll :=
       Some (match resolvedCheck with Some _ => true | None => false end
             && match primarySegment with
                | Some g => hinted Intent.ACTION_NOW g
                | None => false
                end);
     d_stat := Status.present (pc_stat <$> resolvedCheck);
     d_skill := None;
     d_dc :=
       match pc_difficulty <$> resolvedCheck with
       | Some (dc n) => Some n
       | _ => None
       end;
     d_actionLabel :=
       Some (orElse (Some (summarizeActionText
                             (orElse (Intent.text <$> primarySegment) text)))
               (summarizeActionText text));
     narration := [] |}.

(** The entry written after a resolved roll (lines 1367-1377 and
    1420-1430), when the check carries a label. *)
Definition recordResolved (campaignKey : string) (pending : PendingCheck)
    (fallbackDomain : string) (now : Z) (s : Server) : Server :=
  match Status.present (Some (orElse (pc_actionLabel pending) (pc_context pending))) with
  | Some label =>
    updateLastResolvedAction campaignKey
      {| Intent.summary := label;
         Intent.domain := orElse (pc_domain pending) (str fallbackDomain);
         Intent.stat := Status.present (Some (pc_stat pending));
         Intent.skill := pc_skill pending;
         Intent.timestamp := now;
         Intent.keywords := Some (extractKeywords label) |} s
  | None => s
  end.

(** The branch [pending.type === 'attack'] of a resolved roll
    (lines 1299-1386). *)
Definition resolveAttackRoll (campaignKey : string) (pending : PendingCheck)
    (roll : RollResult) (req : Request) (ext : External) (s : Server) : Server * Response :=
  let snap := playerSnapshot req in
  let '(table, battleState) :=
    match battles s !! campaignKey with
    | Some b => (battles s, b)
    | None =>
      let baseHp := default (Int 20) (snap ≫= Combat.snap_hp) in
      let baseMp := default (Int 0) (snap ≫= Combat.snap_mp) in
      let b := Combat.startBattle campaignKey (protagonist (characterName req) baseHp baseMp)
                 [opponent (pc_targetLabel pending)] in
      (<[campaignKey := b]> (battles s), b)
    end in
  let targetId :=
    match truthy (pc_target pending) with
    | Some t =>
      match List.find (Combat.has_id t) (Combat.entities battleState) with
      | Some _ => Some t
      | None =>
        truthy (Combat.ent_id <$> List.find Combat.living_enemy (Combat.entities battleState))
      end
    | None =>
      truthy (Combat.ent_id <$> List.find Combat.living_enemy (Combat.entities battleState))
    end in
  let rollTotal :=
    match r_total roll with
    | Some t => t
    | None => default 0 (r_result roll)
    end in
  let rollBonus :=
    match r_bonus roll with
    | Some b => b
    | None =>
      match r_d20 roll with
      | Some d => rollTotal - d
      | None => 0
      end
    end in
  let attackRoll :=
    match r_d20 roll with
    | Some d =>
      Some {| Combat.roll_d20 := Some d; Combat.roll_bonus := Some rollBonus;
              Combat.roll_total := Some rollTotal |}
    | None => None
    end in
  match Combat.resolveAction rnd table campaignKey
          {| Combat.action := Combat.attack; Combat.actor := "player";
             Combat.target := targetId;
             Combat.params := Some [("action_type", pc_reason pending);
                                    ("label", pc_context pending)];
             Combat.free_text := None |}
          snap attackRoll (drawn s) with
  | Thrown _ => (set_battles table (drawn s) s, ServerError)
  | Returned (table', (state', events), n) =>
    let s := set_battles table' n s in
    match ext_combatNarration ext with
    | None => (s, ServerError)
    | Some told =>
      (recordResolved campaignKey pending "violence" (ext_now ext) s,
       CombatResolved told state' events)
    end
  end.

(** The roll branch of the handler (lines 1293-1447): [None] when the
    handler falls through to the treatment of a new action. *)
Definition resolvePending (campaignKey : string) (req : Request) (ext : External)
    (s : Server) : option (Server * Response) :=
  match rollResult req, truthy (pendingCheckId req) with
  | Some roll, Some checkId =>
    match pendingChecks s !! campaignKey with
    | Some pending =>
      if String.eqb (pc_id pending) checkId then
        let s := set_pending (delete campaignKey (pendingChecks s)) s in
        match pc_type pending with
        | attack => Some (resolveAttackRoll campaignKey pending roll req ext s)
        | _ =>
          match ext_dm ext with
          | None => Some (s, ServerError)
          | Some dm =>
            Some (recordResolved campaignKey pending "other" (ext_now ext) s, Narrated dm)
          end
        end
      else None
    | None => None
    end
  | _, _ => None
  end.

(** The decision of lines 1449-1493: the router's when it answered, the
    fallback otherwise; [gameState] is the entry read at the top of the
    handler. *)
Definition decide (text : jstring) (gameState : GameState) (req : Request)
    (ext : External) : Decision :=
  let segments :=
    Intent.annotateSegments (segmentMessage text) (lastResolvedAction gameState) in
  let fallbackIntent :=
    classifyIntent text (selectedTarget req) (sceneParticipants req) (gameContext req) in
  match ext_decision ext with
  | Some d => d
  | None => fallbackDecision text (gameContext req) segments fallbackIntent
  end.

(** The treatment of a new action (lines 1449-1622). *)
Definition newAction (campaignKey : string) (text : jstring) (gameState : GameState)
    (req : Request) (ext : External) (s : Server) : Server * Response :=
  let fallbackIntent :=
    classifyIntent text (selectedTarget req) (sceneParticipants req) (gameContext req) in
  let decision := decide text gameState req ext in
  let tgt :=
    match truthy (selectedTarget req) with
    | Some t => Some t
    | None => detectTarget text (sceneParticipants req)
    end in
  let pendingCheck :=
    match shouldRoll decision with
    | Some true =>
      buildDecisionCheck (ext_checkId ext) decision tgt text (sceneParticipants req)
    | _ => None
    end in
  match pendingCheck with
  | Some check =>
    let s :=
      match pc_type check, battles s !! campaignKey with
      | attack, None =>
        set_battles
          (<[campaignKey :=
               Combat.startBattle campaignKey (protagonist (characterName req) 20 0)
                 [opponent (pc_targetLabel check)]]> (battles s))
          (drawn s) s
      | _, _ => s
      end in
    let s := set_pending (<[campaignKey := with_intent fallbackIntent check]>
                            (pendingChecks s)) s in
    (s, RollRequired check)
  | None =>
    let s :=
      match shouldRoll decision, d_intentType decision with
      | Some false, kind =>
        if match kind with
           | Some k => String.eqb k "PAST_REF" || String.eqb k "SPEECH"
           | None => false
           end
        then s
        else
          match Status.present (Some (trim (orElse (d_actionLabel decision) []))) with
          | Some label =>
            updateLastResolvedAction campaignKey
              {| Intent.summary := label;
                 Intent.domain := orElse (d_domain decision) (str "other");
                 Intent.stat := Status.present (d_stat decision);
                 Intent.skill := d_skill decision;
                 Intent.timestamp := ext_now ext;
                 Intent.keywords := Some (extractKeywords label) |} s
          | None => s
          end
      | _, _ => s
      end in
    match ext_dm ext with
    | None => (s, ServerError)
    | Some dm => (s, Narrated dm)
    end
  end.

(** [router.post('/dm-response', ...)] *)
Definition dmResponse (req : Request) (ext : External) (s : Server) : Server * Response :=
  match Status.present (playerAction req) with
  | None => (s, BadRequest)
  | Some text =>
    let campaignKey := keyOf req in
    let gameState := gameStateOf campaignKey s in
    let currentTurn :=
      match turnIndex gameState with
      | Some t => t + 1
      | None => 1
      end in
    let s := set_game (<[campaignKey := {| lastResolvedAction := lastResolvedAction gameState;
                                            turnIndex := Some currentTurn |}]>
                         (gameStateByCampaign s)) s in
    match resolvePending campaignKey req ext s with
    | Some answer => answer
    | None => newAction campaignKey text gameState req ext s
    end
  end.

(** What the body of [POST /start] says of a combatant. [g_hp] and
    [g_hp_max] are what [Number(...)] reads in the property when it is
    present (neither [undefined] nor [null]): [NaN] for what is no number.
    [g_mp] and [g_mp_max] are [Some] when the property is a number for
    [typeof]. The [id] and the [name], when present, are taken to be
    strings. *)
Record Described : Type := {
  g_id : option string;
  g_name : option string;
  g_hp : option Num;
  g_hp_max : option Num;
  g_mp : option Num;
  g_mp_max : option Num
}.

(** [Number(x.hp_max ?? x.hp ?? fallback)] *)
Definition hpMaxOf (fallback : Z) (g : Described) : Num :=
  match g_hp_max g with
  | Some m => m
  | None => default (Int fallback) (g_hp g)
  end.

(** [playerEntity] of [POST /start]. *)
Definition playerEntity (p : Described) : Combat.CombatEntity :=
  {| Combat.ent_id := default "player" (truthy (g_id p));
     Combat.ent_type := Combat.player;
     Combat.name := default "Player" (truthy (g_name p));
     Combat.hp := default (Int 1) (g_hp p);
     Combat.hp_max := hpMaxOf 1 p;
     Combat.mp := g_mp p;
     Combat.mp_max := g_mp_max p;
     Combat.statuses := [] |}.

(** The callback of [enemies.map] in [POST /start]. *)
Definition enemyEntity (index : nat) (e : Described) : Combat.CombatEntity :=
  {| Combat.ent_id := default (String.append "enemy-" (pretty index)) (truthy (g_id e));
     Combat.ent_type := Combat.enemy;
     Combat.name := default (String.append "Enemy " (pretty (S index))) (truthy (g_name e));
     Combat.hp := default (Int 10) (g_hp e);
     Combat.hp_max := hpMaxOf 10 e;
     Combat.mp := None;
     Combat.mp_max := None;
     Combat.statuses := [] |}.

(** The elements of [enemies], when none of them is [null] or [undefined]
    (reading a property of such an element throws). *)
Fixpoint allPresent {A : Type} (l : list (option A)) : option (list A) :=
  match l with
  | [] => Some []
  | Some x :: rest => cons x <$> allPresent rest
  | None :: _ => None
  end.

(** [POST /start] of the combat routes: nothing happens when the campaign
    id or the player is missing, when [enemies] is no array, or when the
    construction of an enemy throws. *)
Definition combatStart (campaignId : option string) (p : option Described)
    (enemies : option (list (option Described))) (s : Server) : Server :=
  match truthy campaignId, p, enemies ≫= allPresent with
  | Some cid, Some described, Some foes =>
    set_battles
      (<[cid := Combat.startBattle cid (playerEntity described) (imap enemyEntity foes)]>
         (battles s))
      (drawn s) s
  | _, _, _ => s
  end.

(** [POST /action] of the combat routes: nothing happens when the campaign
    id or the intent is missing; a thrown error leaves the maps as they
    were. *)
Definition combatAction (campaignId : option string) (intent : option Combat.ActionIntent)
    (snap : option Combat.Snapshot) (s : Server) : Server :=
  match truthy campaignId, intent with
  | Some cid, Some i =>
    match Combat.resolveAction rnd (battles s) cid i snap None (drawn s) with
    | Returned (table, _, n) => set_battles table n s
    | Thrown _ => s
    end
  | _, _ => s
  end.

(** The server states the routes can be in: the maps start empty, and every
    request moves from one state to the next. *)
Inductive reachable : Server -> Prop :=
  | reach_start (n : nat) :
      reachable {| pendingChecks := ∅; gameStateByCampaign := ∅; battles := ∅; drawn := n |}
  | reach_request (s : Server) (req : Request) (ext : External) :
      reachable s -> reachable (fst (dmResponse req ext s))
  | reach_combat_start (s : Server) (campaignId : option string) (p : option Described)
      (enemies : option (list (option Described))) :
      reachable s -> reachable (combatStart campaignId p enemies s)
  | reach_combat_action (s : Server) (campaignId : option string)
      (intent : option Combat.ActionIntent) (snap : option Combat.Snapshot) :
      reachable s -> reachable (combatAction campaignId intent snap s).

End Handler.

(** The pending checks stored for a campaign. *)
Definition checksOf (campaignKey : string) (s : Server) : list PendingCheck :=
  snd <$> List.filter (fun kv => String.eqb (fst kv) campaignKey)
            (map_to_list (pendingChecks s)).




(** Every stored battle is in order: distinct status keys entity by entity,
    and a player with a non-empty id. *)
Definition tidy (table : gmap string Combat.CombatState) : Prop :=
  forall campaignKey b,
    table !! campaignKey = Some b -> Combat.in_order b.

End Routes.

(** ** A sample battle *)

Module Sample.
Import Combat.

Definition hero (points : Z) (sts : list Status) : CombatEntity :=
  {| ent_id := "player"; ent_type := player; name := "Player"; hp := points; hp_max := 20;
     mp := Some (Int 0); mp_max := Some (Int 0); statuses := sts |}.

Definition goblin (i : string) (points : Z) : CombatEntity :=
  {| ent_id := i; ent_type := enemy; name := "Goblin"; hp := points; hp_max := 12;
     mp := None; mp_max := None; statuses := [] |}.

Definition guarding : list Status := [{| key := "defending"; duration := 1 |}].

Definition act (a : Action) (who : string) (whom : option string) : ActionIntent :=
  {| action := a; actor := who; target := whom; params := None; free_text := None |}.

(** An entropy source that makes the successive dice show the given faces:
    each entry is [(shown, faces)]; afterwards every die shows 1. *)
Definition dice (rolls : list (Z * Z)) (n : nat) : Unit01 :=
  match nth_error rolls n with
  | Some (k, faces) => showing k faces
  | None => {| u_num := 0; u_gap := 0 |}
  end.

Definition start (c : CombatState) : Ctx := {| state := c; events := []; drawn := 0 |}.

(** The battle the [/dm-response] route starts: a player and one enemy. *)
Definition duel (points : Z) (sts : list Status) (foe : Z) : CombatState :=
  startBattle "c" (hero points sts) [goblin "enemy-0" foe].

Definition table (b : CombatState) : gmap string CombatState := {[ "c" := b ]}.






(** Stand-ins for the helpers of the route file, and a server at rest. *)
Definition oneSegment (t : JS.jstring) : list Intent.Segment := [Intent.segment "seg-1" t].

Definition talk (_ : JS.jstring) (whom : option string) (_ : Routes.Participants)
    (_ : option JS.jstring) : Routes.ActionIntent :=
  {| Routes.action := Routes.act_talk; Routes.target := whom; Routes.tags := [] |}.

Definition noCheck (_ : Routes.ActionIntent) (_ : JS.jstring) (_ : option JS.jstring)
    : option Routes.PendingCheck := None.

Definition asIs (t : JS.jstring) : JS.jstring := t.

Definition nobody (_ : JS.jstring) (_ : Routes.Participants) : option string := None.

Definition labelOf (t : option string) (_ : Routes.Participants) : string :=
  default "Enemy" t.

Definition melee (_ : JS.jstring) : JS.jstring * JS.jstring * JS.jstring :=
  (JS.str "STR", JS.str "Melee Attack", JS.str "melee").

Definition handle : Routes.Request -> Routes.External -> Routes.Server ->
                    Routes.Server * Routes.Response :=
  Routes.dmResponse (dice []) oneSegment talk noCheck asIs nobody labelOf melee.

Definition decide : JS.jstring -> Routes.GameState -> Routes.Request -> Routes.External ->
                    Routes.Decision :=
  Routes.decide oneSegment talk noCheck asIs.

Definition idle : Routes.Server :=
  {| Routes.pendingChecks := ∅; Routes.gameStateByCampaign := ∅; Routes.battles := ∅;
     Routes.drawn := 0 |}.

Definition fifteen : Routes.RollResult :=
  {| Routes.r_total := Some 15; Routes.r_result := None; Routes.r_d20 := Some 13;
     Routes.r_bonus := Some 2 |}.

(** A request that brings a roll result for a check nobody stored. *)
Definition strayRequest : Routes.Request :=
  {| Routes.playerAction := Some (JS.str "I look around");
     Routes.characterName := None;
     Routes.gameContext := None;
     Routes.campaignId := Some "c";
     Routes.rollResult := Some fifteen;
     Routes.pendingCheckId := Some "check_1";
     Routes.selectedTarget := None;
     Routes.sceneParticipants := [];
     Routes.playerSnapshot := None |}.

Definition quiet : Routes.External :=
  {| Routes.ext_decision := None; Routes.ext_checkId := "check_2"; Routes.ext_now := 0;
     Routes.ext_combatNarration := Some "Steel rings."; Routes.ext_dm := Some "Nothing stirs." |}.

(** The same request without a roll result. *)
Definition plainRequest : Routes.Request := Routes.without_roll strayRequest.

(** Collaborators whose router answers with the decision [d], the next
    check id being [checkId]. *)
Definition routed (checkId : string) (d : Routes.Decision) : Routes.External :=
  {| Routes.ext_decision := Some d; Routes.ext_checkId := checkId; Routes.ext_now := 0;
     Routes.ext_combatNarration := Some "Steel rings."; Routes.ext_dm := Some "Nothing stirs." |}.

Definition decision (kind : string) (domain : string) (roll : bool) (stat : option string)
    (label : string) : Routes.Decision :=
  {| Routes.primarySegmentId := "seg-1";
     Routes.d_intentType := Some kind;
     Routes.d_domain := Some (JS.str domain);
     Routes.shouldRoll := Some roll;
     Routes.d_stat := JS.str <$> stat;
     Routes.d_skill := None;
     Routes.d_dc := None;
     Routes.d_actionLabel := Some (JS.str label);
     Routes.narration := [] |}.


Definition climb : Routes.Decision :=
  decision "ACTION_NOW" "physical" true (Some "STR") "climb the wall".



(** The server after a first request whose climb calls for a roll: the
    check [check_A] is stored for campaign [c], and no battle is on. *)
Definition waiting : Routes.Server := fst (handle plainRequest (routed "check_A" climb) idle).

End Sample.

(** * Properties *)

Import Combat.

Import Combat.

(** ** Dice *)



Lemma rollDie_showing (k faces : Z) :
  1 <= k <= faces -> rollDie faces (showing k faces) = k.
Proof.
  intros Hk. unfold rollDie, floorTimes, u_den, showing; simpl.
  rewrite !Z2N.id by lia.
  replace (k - 1 + (faces - k) + 1) with faces by lia.
  rewrite Z.div_mul by lia. lia.
Qed.

(** Comparisons with 0. *)
Lemma Num_eqb_0 (a : Num) : Num.eqb a 0 = true <-> a = Int 0.
Proof.
  destruct a as [z|]; simpl; [|split; discriminate].
  rewrite Z.eqb_eq. split; congruence.
Qed.

(** ** One attack *)

Section AttackFacts.

Variable rnd : nat -> Unit01.

(** The context in which the damage die is drawn: after the
    [ATTACK_RESOLVED] event, and after the d20 when one was rolled. *)
Lemma resolveAttack_found (intent : ActionIntent) (roll : option AttackRoll) (c : Ctx)
    (targetId : string) (attacker tgt : CombatEntity) :
  truthy (target intent) = Some targetId ->
  List.find (has_id (actor intent)) (entities (state c)) = Some attacker ->
  List.find (has_id targetId) (entities (state c)) = Some tgt ->
  let d20 := d20Of roll (rnd (drawn c)) in
  let bonus := bonusOf roll d20 in
  let total := totalOf roll d20 bonus in
  let hit := hitOf (d20 =? 20) (d20 =? 1) total 10 in
  let n := match roll ≫= roll_d20 with Some _ => drawn c | None => S (drawn c) end in
  let resolved := ATTACK_RESOLVED (ent_id attacker) (ent_id tgt) hit d20 bonus total
                    (d20 =? 20) (d20 =? 1) 10 in
  let damage := damageOf tgt (d20 =? 20) (baseDamageOf (ent_type attacker) (rnd n)) in
  let left := clamp (Num.sub (hp tgt) damage) 0 (hp_max tgt) in
  resolveAttack rnd intent roll c =
    if hit then
      {| state := set_entities (updateFirst (has_id targetId) (set_hp left) (entities (state c)))
                    (state c);
         events := events c ++ resolved :: DAMAGE_APPLIED (ent_id tgt) damage (ent_id attacker) left
                     :: (if Num.eqb left 0 then [ENEMY_DEFEATED (ent_id tgt)] else []);
         drawn := S n |}
    else
      {| state := state c; events := events c ++ [resolved]; drawn := n |}.
Proof.
  intros Ht Ha Hg. unfold resolveAttack. rewrite Ht, Ha, Hg. cbv zeta.
  destruct (roll ≫= roll_d20) as [d|] eqn:Hd.
  - destruct (hitOf _ _ _ _); [|reflexivity].
    unfold push, with_state, draw; simpl.
    destruct (Num.eqb _ _); simpl; rewrite <- ?app_assoc; reflexivity.
  - destruct (hitOf _ _ _ _); [|reflexivity].
    unfold push, with_state, draw; simpl.
    destruct (Num.eqb _ _); simpl; rewrite <- ?app_assoc; reflexivity.
Qed.

(** An attack whose target is absent, or whose actor or target names nobody,
    returns at once. *)
Lemma resolveAttack_unresolved (intent : ActionIntent) (roll : option AttackRoll) (c : Ctx) :
  (truthy (target intent) = None
   \/ List.find (has_id (actor intent)) (entities (state c)) = None
   \/ (exists t, truthy (target intent) = Some t
                 /\ List.find (has_id t) (entities (state c)) = None)) ->
  resolveAttack rnd intent roll c = c.
Proof.
  unfold resolveAttack. intros [H | [H | (t & H1 & H2)]].
  - now rewrite H.
  - rewrite H. now destruct (truthy (target intent)).
  - rewrite H1, H2. now destruct (List.find (has_id (actor intent)) _).
Qed.

(** C1. In an attack that reaches its resolution (attacker and target both
    found), the [ATTACK_RESOLVED] event reports a hit whenever the d20 shows
    20 and a miss whenever it shows 1, whatever the total; for every other
    d20 it reports a hit exactly when the total is at least the armour class,
    which is 10. A reported hit is followed by the damage application; a
    reported miss leaves the battle as it was and emits nothing more. *)
Theorem attack_hit_rule (intent : ActionIntent) (roll : option AttackRoll) (c : Ctx)
    (targetId : string) (attacker tgt : CombatEntity) :
  truthy (target intent) = Some targetId ->
  List.find (has_id (actor intent)) (entities (state c)) = Some attacker ->
  List.find (has_id targetId) (entities (state c)) = Some tgt ->
  exists (d20 bonus total : Z) (hit : bool) (after : list CombatEvent),
    events (resolveAttack rnd intent roll c) =
      events c ++
      ATTACK_RESOLVED (ent_id attacker) (ent_id tgt) hit d20 bonus total
        (d20 =? 20) (d20 =? 1) 10 :: after
    /\ d20 = default (rollDie 20 (rnd (drawn c))) (roll ≫= roll_d20)
    /\ total = default (d20 + bonus) (roll ≫= roll_total)
    /\ (d20 = 20 -> hit = true)
    /\ (d20 = 1 -> hit = false)
    /\ (d20 <> 20 -> d20 <> 1 -> (hit = true <-> 10 <= total))
    /\ (hit = true ->
        exists amount left rest,
          after = DAMAGE_APPLIED (ent_id tgt) amount (ent_id attacker) left :: rest
          /\ entities (state (resolveAttack rnd intent roll c)) =
               updateFirst (has_id targetId) (set_hp left) (entities (state c)))
    /\ (hit = false ->
        after = [] /\ state (resolveAttack rnd intent roll c) = state c).
Proof.
  intros Ht Ha Hg.
  rewrite (resolveAttack_found intent roll c targetId attacker tgt Ht Ha Hg).
  cbv zeta.
  set (d20 := d20Of roll (rnd (drawn c))).
  set (bonus := bonusOf roll d20).
  set (total := totalOf roll d20 bonus).
  exists d20, bonus, total, (hitOf (d20 =? 20) (d20 =? 1) total 10).
  assert (Hrule : (d20 = 20 -> hitOf (d20 =? 20) (d20 =? 1) total 10 = true)
                  /\ (d20 = 1 -> hitOf (d20 =? 20) (d20 =? 1) total 10 = false)
                  /\ (d20 <> 20 -> d20 <> 1 ->
                      (hitOf (d20 =? 20) (d20 =? 1) total 10 = true <-> 10 <= total))).
  { unfold hitOf. repeat split.
    - intros ->. reflexivity.
    - intros ->. reflexivity.
    - destruct (Z.eqb_spec d20 20); [lia|]. destruct (Z.eqb_spec d20 1); [lia|].
      apply Z.leb_le.
    - destruct (Z.eqb_spec d20 20); [lia|]. destruct (Z.eqb_spec d20 1); [lia|].
      apply Z.leb_le. }
  destruct Hrule as (H20 & H1 & Hmid).
  destruct (hitOf (d20 =? 20) (d20 =? 1) total 10) eqn:Hhit; simpl.
  - eexists. do 6 (split; [first [reflexivity | assumption]|]). split.
    + intros _. eexists _, _, _. split; reflexivity.
    + discriminate.
  - exists []. do 6 (split; [first [reflexivity | assumption]|]). split.
    + discriminate.
    + intros _. split; reflexivity.
Qed.

Lemma find_has_key_existsb (k : string) (l : list Status) :
  existsb (fun s => String.eqb (key s) k) l =
    match List.find (has_key k) l with Some _ => true | None => false end.
Proof.
  induction l as [|s l IH]; simpl; [reflexivity|]. unfold has_key at 1.
  destruct (String.eqb (key s) k); simpl; [reflexivity | exact IH].
Qed.



(** [ENEMY_DEFEATED] is pushed whenever the hit points left by a hit are 0;
    the test does not look at the type of the target. *)
Lemma defeated_event_rule (intent : ActionIntent) (roll : option AttackRoll) (c : Ctx)
    (targetId : string) (attacker tgt : CombatEntity) :
  truthy (target intent) = Some targetId ->
  List.find (has_id (actor intent)) (entities (state c)) = Some attacker ->
  List.find (has_id targetId) (entities (state c)) = Some tgt ->
  forall who,
    In (ENEMY_DEFEATED who) (skipn (List.length (events c)) (events (resolveAttack rnd intent roll c)))
    <-> who = ent_id tgt
        /\ exists amount source,
             In (DAMAGE_APPLIED (ent_id tgt) amount source 0)
                (skipn (List.length (events c)) (events (resolveAttack rnd intent roll c))).
Proof.
  intros Ht Ha Hg who.
  rewrite (resolveAttack_found intent roll c targetId attacker tgt Ht Ha Hg).
  cbv zeta.
  destruct (hitOf _ _ _ _); simpl events; rewrite drop_app_length.
  - destruct (Num.eqb _ _) eqn:Hz.
    + apply Num_eqb_0 in Hz. rewrite Hz. simpl. split.
      * intros [H|[H|[H|[]]]]; try discriminate. injection H as <-.
        split; [reflexivity|]. eexists _, _. right; left. reflexivity.
      * intros [-> _]. right; right; left. reflexivity.
    + simpl. split.
      * intros [H|[H|[]]]; discriminate.
      * intros [_ (a & src & [H|[H|[]]])]; try discriminate.
        injection H as _ _ Hl. rewrite Hl in Hz. discriminate Hz.
  - simpl. split.
    + intros [H|[]]; discriminate.
    + intros [_ (a & src & [H|[]])]; discriminate.
Qed.

End AttackFacts.

Lemma attack_hit_rule_witness :
  exists (d20 bonus total : Z) (hit : bool) (after : list CombatEvent),
    events (resolveAttack (Sample.dice [(14, 20); (4, 6)])
              (Sample.act attack "enemy-0" (Some "player")) None
              (Sample.start (startBattle "c" (Sample.hero 20 []) [Sample.goblin "enemy-0" 12]))) =
      [] ++ ATTACK_RESOLVED "enemy-0" "player" hit d20 bonus total (d20 =? 20) (d20 =? 1) 10 :: after
    /\ d20 = default (rollDie 20 (Sample.dice [(14, 20); (4, 6)] 0%nat)) (None ≫= roll_d20)
    /\ total = default (d20 + bonus) (None ≫= roll_total)
    /\ (d20 = 20 -> hit = true)
    /\ (d20 = 1 -> hit = false)
    /\ (d20 <> 20 -> d20 <> 1 -> (hit = true <-> 10 <= total))
    /\ (hit = true ->
        exists amount left rest,
          after = DAMAGE_APPLIED "player" amount "enemy-0" left :: rest
          /\ entities (state (resolveAttack (Sample.dice [(14, 20); (4, 6)])
                                (Sample.act attack "enemy-0" (Some "player")) None
                                (Sample.start (startBattle "c" (Sample.hero 20 [])
                                                 [Sample.goblin "enemy-0" 12])))) =
               updateFirst (has_id "player") (set_hp left)
                 [Sample.hero 20 []; Sample.goblin "enemy-0" 12])
    /\ (hit = false ->
        after = []
        /\ state (resolveAttack (Sample.dice [(14, 20); (4, 6)])
                    (Sample.act attack "enemy-0" (Some "player")) None
                    (Sample.start (startBattle "c" (Sample.hero 20 [])
                                     [Sample.goblin "enemy-0" 12]))) =
             startBattle "c" (Sample.hero 20 []) [Sample.goblin "enemy-0" 12]).
Proof.
  apply (attack_hit_rule (Sample.dice [(14, 20); (4, 6)])
           (Sample.act attack "enemy-0" (Some "player")) None
           (Sample.start (startBattle "c" (Sample.hero 20 []) [Sample.goblin "enemy-0" 12]))
           "player" (Sample.goblin "enemy-0" 12) (Sample.hero 20 []));
    reflexivity.
Defined.


(** ** Rosters *)

Lemma find_has_id_some (i : string) (l : list CombatEntity) (e : CombatEntity) :
  List.find (has_id i) l = Some e -> ent_id e = i /\ In e l.
Proof.
  intros H. apply List.find_some in H as [Hin Hid]. split; [|exact Hin].
  now apply String.eqb_eq.
Qed.

Lemma find_has_id_ids (i : string) (l l' : list CombatEntity) :
  map ent_id l = map ent_id l' ->
  List.find (has_id i) l = None -> List.find (has_id i) l' = None.
Proof.
  revert l'. induction l as [|x l IH]; intros [|y l'] Hm; try discriminate; auto.
  simpl in *. injection Hm as Hxy Hm. unfold has_id at 1 3. rewrite Hxy.
  destruct (String.eqb (ent_id y) i); [discriminate|]. now apply IH.
Qed.

Lemma find_has_id_present (i : string) (l : list CombatEntity) :
  In i (map ent_id l) -> exists e, List.find (has_id i) l = Some e.
Proof.
  induction l as [|x l IH]; simpl; [tauto|].
  intros Hin. unfold has_id at 1. destruct (String.eqb_spec (ent_id x) i) as [Heq|Hne].
  - eauto.
  - destruct Hin as [Hx|Hin]; [contradiction|]. now apply IH.
Qed.

Section Rewriting.

Context {A : Type} (R : A -> A -> Prop).
Hypothesis R_refl : forall x, R x x.

Lemma Forall2_same (l : list A) : Forall2 R l l.
Proof. induction l; constructor; auto. Qed.

Lemma updateFirst_Forall2 (p : A -> bool) (f : A -> A) (l : list A) :
  (forall x, List.find p l = Some x -> R x (f x)) ->
  Forall2 R l (updateFirst p f l).
Proof.
  induction l as [|x l IH]; simpl; intros H; [constructor|].
  destruct (p x) eqn:Hp.
  - constructor; [now apply H | apply Forall2_same].
  - constructor; [apply R_refl | now apply IH].
Qed.

Hypothesis R_trans : forall x y z, R x y -> R y z -> R x z.

Lemma Forall2_chain (l1 l2 l3 : list A) :
  Forall2 R l1 l2 -> Forall2 R l2 l3 -> Forall2 R l1 l3.
Proof.
  intros H. revert l3. induction H; intros l3 H3; inversion H3; subst; constructor; eauto.
Qed.

End Rewriting.

Lemma same_but_hp_refl (e : CombatEntity) : same_but_hp e e.
Proof. unfold same_but_hp. now destruct e. Qed.

Lemma same_but_hp_trans (e1 e2 e3 : CombatEntity) :
  same_but_hp e1 e2 -> same_but_hp e2 e3 -> same_but_hp e1 e3.
Proof. unfold same_but_hp. intros -> ->. reflexivity. Qed.

Lemma same_but_hp_set (v : Num) (e : CombatEntity) : same_but_hp e (set_hp v e).
Proof. reflexivity. Qed.

Lemma keeps_range_refl (e : CombatEntity) : keeps_range e e.
Proof. unfold keeps_range. auto. Qed.

Lemma keeps_range_trans (e1 e2 e3 : CombatEntity) :
  keeps_range e1 e2 -> keeps_range e2 e3 -> keeps_range e1 e3.
Proof.
  unfold keeps_range. intros (Hi & Hm & Hr) (Hi' & Hm' & Hr').
  split; [congruence|]. split; [congruence|]. auto.
Qed.

(** [clamp] of an integer is in range; [clamp] of [NaN] is [NaN]. *)
Lemma clamp_range (v m : Z) :
  0 <= m -> Num.le 0 (clamp v 0 m) /\ Num.le (clamp v 0 m) m.
Proof. unfold clamp. simpl. lia. Qed.

Lemma clamp_NaN (lo hi : Num) : clamp NaN lo hi = NaN.
Proof. unfold clamp. now destruct lo, hi. Qed.

(** Every assignment to [hp] in the engine has the form
    [e.hp = clamp(_, 0, e.hp_max)]. *)
Lemma keeps_range_clamp (v : Num) (e : CombatEntity) :
  (hp_in_range e -> v <> NaN) ->
  keeps_range e (set_hp (clamp v 0 (hp_max e)) e).
Proof.
  intros Hv. unfold keeps_range. simpl.
  split; [reflexivity|]. split; [reflexivity|].
  intros Hr. specialize (Hv Hr). unfold hp_in_range in *. simpl.
  destruct (hp e) as [h|], (hp_max e) as [m|]; simpl in Hr; try tauto.
  destruct v as [z|]; [|congruence].
  apply clamp_range. lia.
Qed.

Lemma same_but_hp_fields (l l' : list CombatEntity) :
  Forall2 same_but_hp l l' ->
  map ent_id l' = map ent_id l
  /\ map ent_type l' = map ent_type l
  /\ map statuses l' = map statuses l.
Proof.
  induction 1 as [|x y l l' Hxy _ (IH1 & IH2 & IH3)]; simpl; [auto|].
  rewrite Hxy, IH1, IH2, IH3. auto.
Qed.


(** ** The phases of a turn *)

Lemma set_entities_same (s : CombatState) : set_entities (entities s) s = s.
Proof. now destruct s. Qed.

Lemma set_entities_twice (l l' : list CombatEntity) (s : CombatState) :
  set_entities l' (set_entities l s) = set_entities l' s.
Proof. reflexivity. Qed.

Section TurnFacts.

Variable rnd : nat -> Unit01.

(** An attack touches nothing but hit points, and leaves them in range. *)
Lemma resolveAttack_frame (intent : ActionIntent) (roll : option AttackRoll) (c : Ctx) :
  exists ents',
    state (resolveAttack rnd intent roll c) = set_entities ents' (state c)
    /\ Forall2 same_but_hp (entities (state c)) ents'
    /\ Forall2 keeps_range (entities (state c)) ents'.
Proof.
  assert (Hsame : exists ents',
             state c = set_entities ents' (state c)
             /\ Forall2 same_but_hp (entities (state c)) ents'
             /\ Forall2 keeps_range (entities (state c)) ents').
  { exists (entities (state c)). rewrite set_entities_same.
    split; [reflexivity|].
    split; apply Forall2_same; [apply same_but_hp_refl | apply keeps_range_refl]. }
  destruct (truthy (target intent)) as [t|] eqn:Ht.
  2: { rewrite resolveAttack_unresolved by auto. exact Hsame. }
  destruct (List.find (has_id (actor intent)) (entities (state c))) as [a|] eqn:Ha.
  2: { rewrite resolveAttack_unresolved by auto. exact Hsame. }
  destruct (List.find (has_id t) (entities (state c))) as [g|] eqn:Hg.
  2: { rewrite resolveAttack_unresolved by eauto. exact Hsame. }
  rewrite (resolveAttack_found rnd intent roll c t a g Ht Ha Hg). cbv zeta.
  destruct (hitOf _ _ _ _); simpl; [|exact Hsame].
  eexists. split; [reflexivity|]. split.
  - apply updateFirst_Forall2; [apply same_but_hp_refl|].
    intros x _. apply same_but_hp_set.
  - apply updateFirst_Forall2; [apply keeps_range_refl|].
    intros x Hx. rewrite Hg in Hx. injection Hx as <-. apply keeps_range_clamp.
    unfold hp_in_range. destruct (hp g); simpl; [discriminate | tauto].
Qed.

(** What an attack adds to the events. *)
Lemma resolveAttack_events (intent : ActionIntent) (roll : option AttackRoll) (c : Ctx)
    (targetId : string) (attacker tgt : CombatEntity) :
  truthy (target intent) = Some targetId ->
  List.find (has_id (actor intent)) (entities (state c)) = Some attacker ->
  List.find (has_id targetId) (entities (state c)) = Some tgt ->
  exists hit d20 bonus total crit fumble dealt,
    events (resolveAttack rnd intent roll c) =
      events c ++ ATTACK_RESOLVED (ent_id attacker) (ent_id tgt) hit d20 bonus total crit fumble 10
                 :: dealt
    /\ forallb is_damage_event dealt = true
    /\ (hit = false -> dealt = [])
    /\ (hit = true ->
        exists amount left,
          dealt = DAMAGE_APPLIED (ent_id tgt) amount (ent_id attacker) left
                    :: (if Num.eqb left 0 then [ENEMY_DEFEATED (ent_id tgt)] else [])).
Proof.
  intros Ht Ha Hg.
  rewrite (resolveAttack_found rnd intent roll c targetId attacker tgt Ht Ha Hg). cbv zeta.
  destruct (hitOf _ _ _ _); simpl.
  - eexists true, _, _, _, _, _, _. split; [reflexivity|].
    split; [now destruct (Num.eqb _ _)|]. split; [discriminate|].
    intros _. eexists _, _. reflexivity.
  - eexists false, _, _, _, _, _, []. split; [reflexivity|].
    split; [reflexivity|]. split; [reflexivity | discriminate].
Qed.

(** One enemy's turn: announced, then its attack on the player, which is
    resolved when the player's id is not empty. *)
Lemma enemyAttack_shape (p foe : CombatEntity) (c : Ctx) :
  In (ent_id foe) (map ent_id (entities (state c))) ->
  In (ent_id p) (map ent_id (entities (state c))) ->
  exists ents' evs,
    state (enemyAttack rnd p c foe) = set_entities ents' (state c)
    /\ Forall2 same_but_hp (entities (state c)) ents'
    /\ Forall2 keeps_range (entities (state c)) ents'
    /\ events (enemyAttack rnd p c foe) = events c ++ TURN_START (ent_id foe) :: evs
    /\ (ent_id p = "" -> evs = [] /\ ents' = entities (state c)
                         /\ drawn (enemyAttack rnd p c foe) = drawn c)
    /\ (ent_id p <> "" ->
        exists hit d20 bonus total crit fumble dealt,
          evs = ATTACK_RESOLVED (ent_id foe) (ent_id p) hit d20 bonus total crit fumble 10
                  :: dealt
          /\ (hit = false -> dealt = [])
          /\ (hit = true ->
              exists amount left,
                dealt = DAMAGE_APPLIED (ent_id p) amount (ent_id foe) left
                          :: (if Num.eqb left 0 then [ENEMY_DEFEATED (ent_id p)] else []))).
Proof.
  intros Hfoe Hp. unfold enemyAttack.
  set (intent := {| action := attack; actor := ent_id foe; target := Some (ent_id p);
                    params := None; free_text := None |}).
  set (c1 := push [TURN_START (ent_id foe)] c).
  destruct (resolveAttack_frame intent None c1) as (ents' & Hst & Hs & Hk).
  destruct (String.eqb_spec (ent_id p) "") as [Hempty|Hne].
  - assert (Hnoop : resolveAttack rnd intent None c1 = c1).
    { apply resolveAttack_unresolved. left. simpl. now rewrite Hempty. }
    exists (entities (state c)), []. rewrite Hnoop. simpl.
    rewrite set_entities_same.
    split; [reflexivity|].
    split; [apply Forall2_same, same_but_hp_refl|].
    split; [apply Forall2_same, keeps_range_refl|].
    split; [reflexivity|]. split; [auto | contradiction].
  - assert (Ht : truthy (target intent) = Some (ent_id p)).
    { simpl. destruct (String.eqb_spec (ent_id p) ""); [contradiction | reflexivity]. }
    destruct (find_has_id_present _ _ Hfoe) as (a & Ha).
    destruct (find_has_id_present _ _ Hp) as (g & Hg).
    destruct (resolveAttack_events intent None c1 (ent_id p) a g Ht Ha Hg)
      as (hit & d20 & bonus & total & crit & fumble & dealt & Hev & Hd & Hmiss & Hhit).
    apply find_has_id_some in Ha as [Ha _]. apply find_has_id_some in Hg as [Hg _].
    simpl in Ha. rewrite Ha, Hg in Hev, Hhit.
    eexists ents', _. rewrite Hst. split; [reflexivity|]. split; [exact Hs|].
    split; [exact Hk|]. split.
    + rewrite Hev. subst c1. simpl. rewrite <- app_assoc. reflexivity.
    + split; [contradiction|].
      intros _. eexists hit, d20, bonus, total, crit, fumble, dealt. auto.
Qed.

Lemma enemy_fold (p : CombatEntity) (foes : list CombatEntity) (c : Ctx) :
  (forall f, In f foes -> In (ent_id f) (map ent_id (entities (state c)))) ->
  In (ent_id p) (map ent_id (entities (state c))) ->
  exists ents' evs,
    state (fold_left (enemyAttack rnd p) foes c) = set_entities ents' (state c)
    /\ Forall2 same_but_hp (entities (state c)) ents'
    /\ Forall2 keeps_range (entities (state c)) ents'
    /\ events (fold_left (enemyAttack rnd p) foes c) = events c ++ evs
    /\ (ent_id p = "" ->
        evs = map TURN_START (map ent_id foes) /\ ents' = entities (state c)
        /\ drawn (fold_left (enemyAttack rnd p) foes c) = drawn c)
    /\ (ent_id p <> "" -> enemy_phase_trace (ent_id p) (map ent_id foes) evs).
Proof.
  revert c. induction foes as [|foe foes IH]; intros c Hfoes Hp.
  - exists (entities (state c)), []. simpl. rewrite set_entities_same, app_nil_r.
    repeat split; auto using trace_done.
    + apply Forall2_same, same_but_hp_refl.
    + apply Forall2_same, keeps_range_refl.
  - simpl fold_left.
    destruct (enemyAttack_shape p foe c (Hfoes foe (or_introl eq_refl)) Hp)
      as (e1 & ev1 & Hst1 & Hs1 & Hk1 & Hev1 & Hidle1 & Htr1).
    pose proof (same_but_hp_fields _ _ Hs1) as (Hids & _ & _).
    assert (He1 : entities (state (enemyAttack rnd p c foe)) = e1) by now rewrite Hst1.
    destruct (IH (enemyAttack rnd p c foe))
      as (e2 & ev2 & Hst2 & Hs2 & Hk2 & Hev2 & Hidle2 & Htr2).
    { intros f Hf. rewrite He1, Hids. apply Hfoes. now right. }
    { now rewrite He1, Hids. }
    rewrite He1 in Hs2, Hk2.
    exists e2, (TURN_START (ent_id foe) :: ev1 ++ ev2).
    split; [now rewrite Hst2, Hst1|].
    split; [exact (Forall2_chain _ same_but_hp_trans _ _ _ Hs1 Hs2)|].
    split; [exact (Forall2_chain _ keeps_range_trans _ _ _ Hk1 Hk2)|].
    split; [rewrite Hev2, Hev1, <- app_assoc; reflexivity|].
    split.
    + intros Hempty. destruct (Hidle1 Hempty) as (-> & -> & Hd1).
      destruct (Hidle2 Hempty) as (-> & -> & Hd2).
      simpl. rewrite Hd2, Hd1, He1. auto.
    + intros Hne.
      destruct (Htr1 Hne) as (hit & d20 & bonus & total & crit & fumble & dealt & -> & Hm & Hh).
      simpl. apply trace_attack; auto.
Qed.

Lemma resolveEnemyTurn_shape (c : Ctx) (hero : CombatEntity) :
  List.find is_player (entities (state c)) = Some hero ->
  exists fought evs,
    state (resolveEnemyTurn rnd c) = set_entities fought (state c)
    /\ Forall2 same_but_hp (entities (state c)) fought
    /\ Forall2 keeps_range (entities (state c)) fought
    /\ events (resolveEnemyTurn rnd c) = events c ++ evs ++ [TURN_START (ent_id hero)]
    /\ (ent_id hero = "" ->
        evs = map TURN_START (map ent_id (List.filter living_enemy (entities (state c))))
        /\ fought = entities (state c)
        /\ drawn (resolveEnemyTurn rnd c) = drawn c)
    /\ (ent_id hero <> "" ->
        enemy_phase_trace (ent_id hero)
          (map ent_id (List.filter living_enemy (entities (state c)))) evs).
Proof.
  intros Hhero. unfold resolveEnemyTurn. rewrite Hhero.
  destruct (enemy_fold hero (List.filter living_enemy (entities (state c))) c)
    as (fought & evs & Hst & Hs & Hk & Hev & Hidle & Htr).
  { intros f Hf. apply List.filter_In in Hf as [Hf _]. now apply in_map. }
  { apply List.find_some in Hhero as [Hin _]. now apply in_map. }
  exists fought, evs. simpl. rewrite Hst, Hev, <- app_assoc.
  split; [reflexivity|]. split; [exact Hs|]. split; [exact Hk|].
  split; [reflexivity|]. split; [|exact Htr].
  intros Hempty. destruct (Hidle Hempty) as (H1 & H2 & H3). auto.
Qed.

Lemma checkCombatEnd_verdict (c : Ctx) :
  checkCombatEnd c =
    match verdict (entities (state c)) with
    | Some r => (true, push [COMBAT_ENDED r] (with_state (set_phase ended) c))
    | None => (false, c)
    end.
Proof.
  unfold checkCombatEnd, verdict.
  destruct (List.find is_player (entities (state c))) as [p|]; [|reflexivity].
  destruct (Num.leb (hp p) 0); [reflexivity|].
  now destruct (existsb living_enemy (entities (state c))).
Qed.

End TurnFacts.

(** ** Status decay *)

Lemma distinct_keys_inj (l : list Status) (s s' : Status) :
  List.NoDup (map key l) -> In s l -> In s' l -> key s = key s' -> s = s'.
Proof.
  induction l as [|x l IH]; simpl; [tauto|].
  intros Hnd [<-|Hs] [<-|Hs'] Hk; inversion Hnd; subst; auto.
  - exfalso. apply H1. rewrite Hk. now apply in_map.
  - exfalso. apply H1. rewrite <- Hk. now apply in_map.
Qed.

Lemma flat_map_choice {A B : Type} (q : A -> bool) (g : A -> B) (f : A -> list B)
    (l : list A) :
  (forall x, In x l -> f x = if q x then [g x] else []) ->
  flat_map f l = map g (List.filter q l).
Proof.
  induction l as [|x l IH]; intros H; simpl; [reflexivity|].
  rewrite (H x) by now left. rewrite IH by (intros; apply H; now right).
  now destruct (q x).
Qed.

(** With distinct keys, [STATUS_REMOVED] is emitted for exactly the statuses
    that are dropped: those whose duration, lowered by one, is not positive. *)
Lemma removedEvents_distinct (e : CombatEntity) :
  distinct_keys e ->
  removedEvents e =
    map (fun st => STATUS_REMOVED (ent_id e) (key st))
      (List.filter (fun st => duration st - 1 <=? 0) (statuses e)).
Proof.
  intros Hnd. unfold removedEvents. apply flat_map_choice.
  intros s Hs. unfold remainingStatuses.
  destruct (List.find _ _) as [x|] eqn:Hf.
  - apply List.find_some in Hf as [Hin Hk].
    apply List.filter_In in Hin as [Hin Hpos].
    apply List.in_map_iff in Hin as (s' & <- & Hs').
    simpl in Hk, Hpos. apply String.eqb_eq in Hk.
    rewrite (distinct_keys_inj _ _ _ Hnd Hs' Hs Hk) in Hpos.
    destruct (Z.leb_spec (duration s - 1) 0); [|reflexivity].
    apply Z.ltb_lt in Hpos. lia.
  - destruct (Z.leb_spec (duration s - 1) 0) as [|Hpos]; [reflexivity|].
    exfalso.
    assert (Hin : In {| key := key s; duration := duration s - 1 |}
                    (List.filter (fun s => 0 <? duration s)
                       (map (fun s => {| key := key s; duration := duration s - 1 |})
                          (statuses e)))).
    { apply List.filter_In. split.
      - apply List.in_map_iff. now exists s.
      - simpl. now apply Z.ltb_lt. }
    pose proof (List.find_none _ _ Hf _ Hin) as Hk.
    unfold has_key in Hk; simpl in Hk. rewrite String.eqb_refl in Hk. discriminate.
Qed.

Lemma removedEvents_distinct_all (l : list CombatEntity) :
  Forall distinct_keys l ->
  flat_map removedEvents l =
    flat_map
      (fun e => map (fun st => STATUS_REMOVED (ent_id e) (key st))
                  (List.filter (fun st => duration st - 1 <=? 0) (statuses e)))
      l.
Proof.
  induction 1 as [|e l He _ IH]; simpl; [reflexivity|].
  now rewrite (removedEvents_distinct e He), IH.
Qed.

Lemma removedEvents_kind (l : list CombatEntity) :
  forallb is_status_removed (flat_map removedEvents l) = true.
Proof.
  apply forallb_forall. intros ev Hev.
  apply in_flat_map in Hev as (e & _ & Hev). unfold removedEvents in Hev.
  apply in_flat_map in Hev as (s & _ & Hev).
  destruct (List.find _ _); simpl in Hev; [tauto|].
  destruct Hev as [<-|[]]. reflexivity.
Qed.

(** ** A whole turn *)

Section CycleFacts.

Variable rnd : nat -> Unit01.

Lemma turnCycle_ended (c : Ctx) (r : CombatResult) :
  verdict (entities (state c)) = Some r ->
  turnCycle rnd c = push [COMBAT_ENDED r] (with_state (set_phase ended) c).
Proof. intros H. unfold turnCycle. rewrite checkCombatEnd_verdict, H. reflexivity. Qed.

(** The turn cycle when the combat is not over after the player's action. *)
Lemma turnCycle_continues (c : Ctx) :
  verdict (entities (state c)) = None ->
  exists hero fought evs,
    let final := map (fun e => set_statuses (remainingStatuses (statuses e)) e) fought in
    List.find is_player (entities (state c)) = Some hero
    /\ state (resolveEnemyTurn rnd (with_state (set_phase enemy_turn) c)) =
         set_entities fought (set_phase enemy_turn (state c))
    /\ events (resolveEnemyTurn rnd (with_state (set_phase enemy_turn) c)) =
         events c ++ evs ++ [TURN_START (ent_id hero)]
    /\ Forall2 same_but_hp (entities (state c)) fought
    /\ Forall2 keeps_range (entities (state c)) fought
    /\ (ent_id hero = "" ->
        evs = map TURN_START (map ent_id (List.filter living_enemy (entities (state c))))
        /\ fought = entities (state c)
        /\ drawn (turnCycle rnd c) = drawn c)
    /\ (ent_id hero <> "" ->
        enemy_phase_trace (ent_id hero)
          (map ent_id (List.filter living_enemy (entities (state c)))) evs)
    /\ state (turnCycle rnd c) =
         set_phase (match verdict final with Some _ => ended | None => player_turn end)
           (set_round (round (state c) + 1) (set_entities final (state c)))
    /\ events (turnCycle rnd c) =
         events c ++ evs ++ [TURN_START (ent_id hero)] ++ flat_map removedEvents fought
           ++ match verdict final with Some r => [COMBAT_ENDED r] | None => [] end
    /\ drawn (turnCycle rnd c) =
         drawn (resolveEnemyTurn rnd (with_state (set_phase enemy_turn) c)).
Proof.
  intros Hv.
  assert (Hhero : exists hero, List.find is_player (entities (state c)) = Some hero).
  { unfold verdict in Hv. destruct (List.find is_player _); [eauto | discriminate]. }
  destruct Hhero as (hero & Hhero).
  destruct (resolveEnemyTurn_shape rnd (with_state (set_phase enemy_turn) c) hero Hhero)
    as (fought & evs & Hst & Hs & Hk & Hev & Hidle & Htr).
  exists hero, fought, evs. cbv zeta.
  assert (Hcycle :
    state (turnCycle rnd c) =
      set_phase (match verdict (map (fun e => set_statuses (remainingStatuses (statuses e)) e)
                                  fought) with
                 | Some _ => ended | None => player_turn end)
        (set_round (round (state c) + 1)
           (set_entities (map (fun e => set_statuses (remainingStatuses (statuses e)) e) fought)
              (state c)))
    /\ events (turnCycle rnd c) =
         events c ++ evs ++ [TURN_START (ent_id hero)] ++ flat_map removedEvents fought
           ++ match verdict (map (fun e => set_statuses (remainingStatuses (statuses e)) e)
                               fought) with
              | Some r => [COMBAT_ENDED r] | None => [] end
    /\ drawn (turnCycle rnd c) =
         drawn (resolveEnemyTurn rnd (with_state (set_phase enemy_turn) c))).
  { unfold turnCycle. rewrite checkCombatEnd_verdict, Hv. cbv zeta.
    rewrite checkCombatEnd_verdict.
    set (c2 := resolveEnemyTurn rnd (with_state (set_phase enemy_turn) c)) in *.
    unfold clearAll, with_state, push; simpl. rewrite Hst; simpl.
    change (fun e : CombatEntity => fst (clearExpiredStatuses e)) with removedEvents.
    destruct (verdict (map _ fought)); simpl;
      rewrite Hev, <- !app_assoc, ?app_nil_r; simpl; repeat split; reflexivity. }
  destruct Hcycle as (Hc1 & Hc2 & Hc3).
  split; [exact Hhero|]. split; [exact Hst|]. split; [exact Hev|].
  split; [exact Hs|]. split; [exact Hk|]. split.
  { intros Hempty. destruct (Hidle Hempty) as (H1 & H2 & H3).
    split; [exact H1|]. split; [exact H2|]. rewrite Hc3, H3. reflexivity. }
  split; [exact Htr|]. split; [exact Hc1|]. split; [exact Hc2 | exact Hc3].
Qed.

(** The snapshot changes at most the player's [hp] and [mp]; it keeps hit
    points in range when the [hp] it brings is not [NaN]. *)
Lemma applySnapshot_frame (snap : option Snapshot) (s : CombatState) :
  exists ents',
    applySnapshot snap s = set_entities ents' s
    /\ map ent_id ents' = map ent_id (entities s)
    /\ (snap ≫= snap_hp <> Some NaN -> Forall2 keeps_range (entities s) ents').
Proof.
  assert (Hids : forall (f : CombatEntity -> CombatEntity) (l : list CombatEntity),
             (forall e, ent_id (f e) = ent_id e) ->
             map ent_id (updateFirst is_player f l) = map ent_id l).
  { intros f l Hf. induction l as [|x l IH]; simpl; [reflexivity|].
    destruct (is_player x); simpl; [now rewrite Hf | now rewrite IH]. }
  assert (Hmp : forall (v : Num) (l : list CombatEntity),
             Forall2 keeps_range l
               (updateFirst is_player
                  (fun e => match mp e, mp_max e with
                            | Some _, Some m => set_mp (clamp v 0 m) e
                            | _, _ => e
                            end) l)).
  { intros v l. apply updateFirst_Forall2; [apply keeps_range_refl|].
    intros x _. destruct (mp x), (mp_max x); try apply keeps_range_refl.
    unfold keeps_range, hp_in_range; simpl; auto. }
  assert (Hhp : forall (v : Num) (l : list CombatEntity),
             v <> NaN ->
             Forall2 keeps_range l
               (updateFirst is_player (fun e => set_hp (clamp v 0 (hp_max e)) e) l)).
  { intros v l Hv. apply updateFirst_Forall2; [apply keeps_range_refl|].
    intros x _. now apply keeps_range_clamp. }
  assert (Hmpid : forall (v : Num) (e : CombatEntity),
             ent_id match mp e, mp_max e with
                    | Some _, Some m => set_mp (clamp v 0 m) e
                    | _, _ => e
                    end = ent_id e).
  { intros v e. now destruct (mp e), (mp_max e). }
  assert (Hnone : exists ents', s = set_entities ents' s
                                /\ map ent_id ents' = map ent_id (entities s)
                                /\ (snap ≫= snap_hp <> Some NaN ->
                                    Forall2 keeps_range (entities s) ents')).
  { exists (entities s). rewrite set_entities_same. repeat split.
    intros _. apply Forall2_same, keeps_range_refl. }
  unfold applySnapshot.
  destruct snap as [sn|]; [|exact Hnone].
  destruct (List.find is_player (entities s)); [|exact Hnone].
  change (Some sn ≫= snap_hp) with (snap_hp sn).
  destruct (snap_hp sn) as [v|], (snap_mp sn) as [w|]; simpl.
  - eexists. split; [reflexivity|]. split.
    + rewrite Hids by apply Hmpid. now rewrite Hids.
    + intros Hok.
      assert (Hv : v <> NaN) by (intros ->; now apply Hok).
      eapply (Forall2_chain _ keeps_range_trans); [apply (Hhp v _ Hv) | apply Hmp].
  - eexists. split; [reflexivity|]. split; [now rewrite Hids|].
    intros Hok. apply Hhp. intros ->. now apply Hok.
  - eexists. split; [reflexivity|]. split; [rewrite Hids by apply Hmpid; reflexivity|].
    intros _. apply Hmp.
  - exists (entities s). rewrite set_entities_same. repeat split.
    intros _. apply Forall2_same, keeps_range_refl.
Qed.

(** The player's action changes hit points only through [resolveAttack]. *)
Lemma dispatch_frame (intent : ActionIntent) (roll : option AttackRoll) (c : Ctx) :
  exists ents',
    state (dispatch rnd intent roll c) = set_entities ents' (state c)
    /\ Forall2 keeps_range (entities (state c)) ents'.
Proof.
  assert (Hnone : exists ents', state c = set_entities ents' (state c)
                                /\ Forall2 keeps_range (entities (state c)) ents').
  { exists (entities (state c)). rewrite set_entities_same. split; [reflexivity|].
    apply Forall2_same, keeps_range_refl. }
  unfold dispatch. destruct (action intent); try exact Hnone.
  - destruct (resolveAttack_frame rnd intent roll c) as (ents' & H1 & _ & H2). eauto.
  - unfold resolveDefend.
    destruct (List.find (has_id (actor intent)) (entities (state c))); [|exact Hnone].
    destruct (List.find (has_key "defending") (statuses c0)); [exact Hnone|].
    simpl. eexists. split; [reflexivity|].
    apply updateFirst_Forall2; [apply keeps_range_refl|].
    intros x _. unfold keeps_range, hp_in_range; simpl; auto.
Qed.



End CycleFacts.

(** ** [resolveAction] *)

(** ** Distinct status keys are an invariant *)

Lemma keeps_keys_refl (e : CombatEntity) : keeps_keys e e.
Proof. unfold keeps_keys. auto. Qed.

Lemma keeps_keys_trans (e1 e2 e3 : CombatEntity) :
  keeps_keys e1 e2 -> keeps_keys e2 e3 -> keeps_keys e1 e3.
Proof. unfold keeps_keys. auto. Qed.

Lemma same_but_hp_keys (l l' : list CombatEntity) :
  Forall2 same_but_hp l l' -> Forall2 keeps_keys l l'.
Proof.
  induction 1 as [|x y l l' Hxy _ IH]; constructor; auto.
  unfold keeps_keys, distinct_keys. now rewrite Hxy.
Qed.

Lemma Forall2_keys_all (l l' : list CombatEntity) :
  Forall2 keeps_keys l l' -> Forall distinct_keys l -> Forall distinct_keys l'.
Proof.
  induction 1 as [|x y l l' Hxy _ IH]; intros Hall; [constructor|].
  inversion Hall; subst. constructor; auto.
Qed.

Lemma remainingStatuses_keys (l : list Status) (k : string) :
  In k (map key (remainingStatuses l)) -> In k (map key l).
Proof.
  unfold remainingStatuses. intros H.
  apply List.in_map_iff in H as (x & <- & Hx).
  apply List.filter_In in Hx as [Hx _].
  apply List.in_map_iff in Hx as (s & <- & Hs). simpl. now apply in_map.
Qed.

Lemma remainingStatuses_distinct (l : list Status) :
  List.NoDup (map key l) -> List.NoDup (map key (remainingStatuses l)).
Proof.
  induction l as [|s l IH]; intros Hnd; [constructor|].
  inversion Hnd as [|? ? Hnotin Hnd']; subst.
  change (remainingStatuses (s :: l))
    with (if 0 <? duration s - 1
          then {| key := key s; duration := duration s - 1 |} :: remainingStatuses l
          else remainingStatuses l).
  destruct (0 <? duration s - 1); [|auto].
  simpl. constructor; [|auto].
  intros Hin. apply Hnotin. now apply remainingStatuses_keys.
Qed.

Lemma decay_keeps_keys (l : list CombatEntity) :
  Forall2 keeps_keys l (map (fun e => set_statuses (remainingStatuses (statuses e)) e) l).
Proof.
  induction l; simpl; constructor; auto.
  unfold keeps_keys, distinct_keys; simpl. apply remainingStatuses_distinct.
Qed.

Lemma applySnapshot_keys (snap : option Snapshot) (s : CombatState) :
  Forall2 keeps_keys (entities s) (entities (applySnapshot snap s)).
Proof.
  assert (Hmp : forall (v : Num) (l : list CombatEntity),
             Forall2 keeps_keys l
               (updateFirst is_player
                  (fun e => match mp e, mp_max e with
                            | Some _, Some m => set_mp (clamp v 0 m) e
                            | _, _ => e
                            end) l)).
  { intros v l. apply updateFirst_Forall2; [apply keeps_keys_refl|].
    intros x _. destruct (mp x), (mp_max x); try apply keeps_keys_refl.
    unfold keeps_keys; auto. }
  assert (Hhp : forall (v : Num) (l : list CombatEntity),
             Forall2 keeps_keys l
               (updateFirst is_player (fun e => set_hp (clamp v 0 (hp_max e)) e) l)).
  { intros v l. apply updateFirst_Forall2; [apply keeps_keys_refl|].
    intros x _. unfold keeps_keys; auto. }
  unfold applySnapshot.
  destruct snap as [sn|]; [|apply Forall2_same, keeps_keys_refl].
  destruct (List.find is_player (entities s)); [|apply Forall2_same, keeps_keys_refl].
  destruct (snap_hp sn) as [v|], (snap_mp sn) as [w|]; simpl;
    [ eapply (Forall2_chain _ keeps_keys_trans); [apply Hhp | apply Hmp]
    | apply Hhp | apply Hmp | apply Forall2_same, keeps_keys_refl ].
Qed.

Lemma dispatch_keys (rnd : nat -> Unit01) (intent : ActionIntent)
    (roll : option AttackRoll) (c : Ctx) :
  Forall2 keeps_keys (entities (state c)) (entities (state (dispatch rnd intent roll c))).
Proof.
  unfold dispatch. destruct (action intent); try apply Forall2_same, keeps_keys_refl.
  - destruct (resolveAttack_frame rnd intent roll c) as (ents' & -> & H & _).
    simpl. now apply same_but_hp_keys.
  - unfold resolveDefend.
    destruct (List.find (has_id (actor intent)) (entities (state c))) as [who|] eqn:Hwho;
      [|apply Forall2_same, keeps_keys_refl].
    destruct (List.find (has_key "defending") (statuses who)) eqn:Hdef;
      [apply Forall2_same, keeps_keys_refl|].
    simpl. apply updateFirst_Forall2; [apply keeps_keys_refl|].
    intros x Hx. rewrite Hwho in Hx. injection Hx as <-.
    unfold keeps_keys, distinct_keys; simpl. intros Hnd.
    rewrite map_app. simpl.
    apply List.NoDup_app; [exact Hnd | constructor; [tauto | constructor] |].
    intros k Hk [<-|[]].
    apply List.in_map_iff in Hk as (st & Hkey & Hst).
    pose proof (List.find_none _ _ Hdef st Hst) as Hno.
    unfold has_key in Hno. rewrite Hkey, String.eqb_refl in Hno. discriminate.
Qed.

(** Every battle the routes start has distinct status keys (no statuses at
    all), and [resolveAction] keeps them distinct. *)
Lemma startBattle_distinct (cid : string) (p : CombatEntity) (foes : list CombatEntity) :
  statuses p = [] -> Forall (fun e => statuses e = []) foes ->
  Forall distinct_keys (entities (startBattle cid p foes)).
Proof.
  intros Hp Hf. simpl. constructor.
  - unfold distinct_keys. rewrite Hp. constructor.
  - eapply Forall_impl; [exact Hf|]. intros e He. unfold distinct_keys. rewrite He. constructor.
Qed.

Lemma resolveAction_distinct (rnd : nat -> Unit01) (battles : gmap string CombatState)
    (cid : string) (intent : ActionIntent) (snap : option Snapshot)
    (roll : option AttackRoll) (n0 : nat) (s0 : CombatState) :
  battles !! cid = Some s0 ->
  Forall distinct_keys (entities s0) ->
  exists s' evs n',
    resolveAction rnd battles cid intent snap roll n0 =
      Returned (<[cid := s']> battles, (s', evs), n')
    /\ Forall distinct_keys (entities s').
Proof.
  intros Hb Hd. unfold resolveAction. rewrite Hb.
  eexists _, _, _. split; [reflexivity|]. simpl.
  set (c1 := dispatch rnd intent roll _).
  assert (H1 : Forall distinct_keys (entities (state c1))).
  { eapply Forall2_keys_all; [apply dispatch_keys|]. simpl.
    eapply Forall2_keys_all; [apply applySnapshot_keys | exact Hd]. }
  destruct (verdict (entities (state c1))) as [r|] eqn:Hv.
  - rewrite (turnCycle_ended rnd c1 r Hv). exact H1.
  - destruct (turnCycle_continues rnd c1 Hv) as (hero & fought & evs & H). cbv zeta in H.
    destruct H as (_ & _ & _ & Hs & _ & _ & _ & Hst & _).
    rewrite Hst. simpl.
    eapply Forall2_keys_all; [apply decay_keeps_keys|].
    eapply Forall2_keys_all; [apply same_but_hp_keys; exact Hs | exact H1].
Qed.

(** ** The engine against the specification's words *)

Lemma outlasting_remaining (l : list Status) : remainingStatuses l = outlasting l.
Proof.
  unfold remainingStatuses, outlasting. induction l as [|st l IH]; [reflexivity|].
  simpl. destruct (Z.ltb_spec 0 (duration st - 1)), (Z.ltb_spec 1 (duration st));
    try lia; simpl; now rewrite IH.
Qed.

Lemma aged_cleared (e : CombatEntity) : snd (clearExpiredStatuses e) = aged e.
Proof. unfold clearExpiredStatuses, aged. simpl. now rewrite outlasting_remaining. Qed.

Lemma notices_removed (e : CombatEntity) : removedEvents e = notices e.
Proof.
  unfold removedEvents, notices. cbv zeta. rewrite outlasting_remaining.
  apply flat_map_choice. intros st _.
  rewrite find_has_key_existsb.
  destruct (List.find (has_key (key st)) (outlasting (statuses e))); reflexivity.
Qed.

Lemma notices_distinct (e : CombatEntity) :
  distinct_keys e ->
  notices e = map (fun st => STATUS_REMOVED (ent_id e) (key st)) (expiring (statuses e)).
Proof.
  intros Hd. rewrite <- notices_removed, (removedEvents_distinct e Hd). unfold expiring.
  f_equal. apply List.filter_ext. intros st.
  destruct (Z.leb_spec (duration st - 1) 0), (Z.leb_spec (duration st) 1); try lia; reflexivity.
Qed.

Lemma livingEnemies_filter (l : list CombatEntity) :
  List.filter living_enemy l = livingEnemies l.
Proof.
  unfold livingEnemies. apply List.filter_ext. intros e.
  unfold living_enemy, is_player. destruct (ent_type e), (hp e); reflexivity.
Qed.

Lemma updateFirst_agree {A : Type} (p : A -> bool) (f g : A -> A) (l : list A) :
  (forall x, List.find p l = Some x -> f x = g x) -> updateFirst p f l = updateFirst p g l.
Proof.
  induction l as [|x l IH]; intros H; [reflexivity|]. simpl in *.
  destruct (p x); [now rewrite H | now rewrite IH].
Qed.

Lemma updateFirst_id {A : Type} (p : A -> bool) (l : list A) :
  updateFirst p (fun x => x) l = l.
Proof. induction l as [|x l IH]; simpl; [|destruct (p x)]; congruence. Qed.

Section SpecFacts.

Variable rnd : nat -> Unit01.

Lemma braced_rule (who : CombatEntity) :
  braced who =
    match List.find (has_key "defending") (statuses who) with
    | Some _ => who
    | None => set_statuses (statuses who ++ [{| key := "defending"; duration := 1 |}]) who
    end.
Proof.
  unfold braced, isDefending. rewrite find_has_key_existsb.
  destruct (List.find _ _); reflexivity.
Qed.

(** The [switch] does what the specification says of each action. *)
Lemma dispatch_performs (intent : ActionIntent) (roll : option AttackRoll) (c : Ctx) :
  performs rnd intent roll c (dispatch rnd intent roll c).
Proof.
  unfold performs, dispatch. destruct (action intent); try reflexivity.
  unfold resolveDefend. cbv zeta.
  change (fun e : CombatEntity => String.eqb (ent_id e) (actor intent))
    with (has_id (actor intent)).
  destruct (List.find (has_id (actor intent)) (entities (state c))) as [who|] eqn:Hw;
    [|auto].
  destruct (List.find (has_key "defending") (statuses who)) eqn:Hd; simpl.
  - split; [reflexivity|]. split; [reflexivity|].
    rewrite (updateFirst_agree _ braced (fun x => x)).
    + now rewrite updateFirst_id, set_entities_same.
    + intros x Hx. rewrite Hw in Hx. inversion Hx; subst. now rewrite braced_rule, Hd.
  - split; [reflexivity|]. split; [reflexivity|]. f_equal.
    apply updateFirst_agree. intros x Hx. rewrite Hw in Hx. inversion Hx; subst.
    now rewrite braced_rule, Hd.
Qed.


Lemma enemyPhase_fold (p : CombatEntity) (foes : list CombatEntity) (c : Ctx) :
  enemyPhase rnd (ent_id p) foes c = fold_left (enemyAttack rnd p) foes c.
Proof. reflexivity. Qed.

Lemma resolveAttack_phase (ph : CombatPhase) (intent : ActionIntent)
    (roll : option AttackRoll) (c : Ctx) :
  resolveAttack rnd intent roll (with_state (set_phase ph) c) =
    with_state (set_phase ph) (resolveAttack rnd intent roll c).
Proof.
  unfold resolveAttack. simpl.
  destruct (truthy (target intent)) as [t|]; [|reflexivity].
  destruct (List.find (has_id (actor intent)) (entities (state c))) as [a|]; [|reflexivity].
  destruct (List.find (has_id t) (entities (state c))) as [g|]; [|reflexivity].
  cbv zeta.
  destruct (roll ≫= roll_d20); simpl;
    destruct (hitOf _ _ _ _); simpl; try reflexivity;
    destruct (Num.eqb _ _); reflexivity.
Qed.

Lemma enemyPhase_phase (ph : CombatPhase) (pid : string) (foes : list CombatEntity)
    (c : Ctx) :
  enemyPhase rnd pid foes (with_state (set_phase ph) c) =
    with_state (set_phase ph) (enemyPhase rnd pid foes c).
Proof.
  unfold enemyPhase. revert c. induction foes as [|foe foes IH]; intros c; [reflexivity|].
  simpl. rewrite <- IH. f_equal.
  change (push [TURN_START (ent_id foe)] (with_state (set_phase ph) c))
    with (with_state (set_phase ph) (push [TURN_START (ent_id foe)] c)).
  apply resolveAttack_phase.
Qed.

Lemma resolveEnemyTurn_phase (c : Ctx) (hero : CombatEntity) :
  List.find is_player (entities (state c)) = Some hero ->
  resolveEnemyTurn rnd c =
    push [TURN_START (ent_id hero)]
      (enemyPhase rnd (ent_id hero) (livingEnemies (entities (state c))) c).
Proof.
  intros Hhero. unfold resolveEnemyTurn. rewrite Hhero. cbv zeta.
  now rewrite livingEnemies_filter.
Qed.

(** What the enemy phase changes and emits. *)
Lemma enemyPhase_shape (c : Ctx) (hero : CombatEntity) :
  List.find is_player (entities (state c)) = Some hero ->
  let foes := livingEnemies (entities (state c)) in
  let c2 := enemyPhase rnd (ent_id hero) foes c in
  state c2 = set_entities (entities (state c2)) (state c)
  /\ Forall2 same_but_hp (entities (state c)) (entities (state c2))
  /\ Forall2 keeps_range (entities (state c)) (entities (state c2))
  /\ exists attacks,
       events c2 = events c ++ attacks
       /\ (ent_id hero <> "" -> enemy_phase_trace (ent_id hero) (map ent_id foes) attacks)
       /\ (ent_id hero = "" ->
           attacks = map TURN_START (map ent_id foes)
           /\ entities (state c2) = entities (state c)
           /\ drawn c2 = drawn c).
Proof.
  intros Hhero foes c2.
  destruct (resolveEnemyTurn_shape rnd c hero Hhero)
    as (fought & evs & Hst & Hs & Hk & Hev & Hidle & Htr).
  rewrite (resolveEnemyTurn_phase c hero Hhero) in Hst, Hev, Hidle.
  fold foes in Hst, Hev, Hidle. fold c2 in Hst, Hev, Hidle. simpl in Hst, Hev, Hidle.
  rewrite livingEnemies_filter in Htr, Hidle. fold foes in Htr, Hidle.
  assert (Hents : entities (state c2) = fought) by now rewrite Hst.
  rewrite Hents. split; [exact Hst|]. split; [exact Hs|]. split; [exact Hk|].
  exists evs. split.
  { rewrite app_assoc in Hev. now apply app_inv_tail in Hev. }
  split; [exact Htr|]. intros Hempty. destruct (Hidle Hempty) as (H1 & H2 & H3). auto.
Qed.

(** The closing block when the combat goes on: enemy phase, next round,
    decay, end check. *)
Lemma turnCycle_round (c : Ctx) (hero : CombatEntity) :
  verdict (entities (state c)) = None ->
  List.find is_player (entities (state c)) = Some hero ->
  let c2 := enemyPhase rnd (ent_id hero) (livingEnemies (entities (state c))) c in
  let final := map aged (entities (state c2)) in
  let all := events c2 ++ [TURN_START (ent_id hero)]
               ++ flat_map notices (entities (state c2))
               ++ match verdict final with Some r => [COMBAT_ENDED r] | None => [] end in
  turnCycle rnd c =
    {| state := {| battle_id := battle_id (state c);
                   phase := match verdict final with Some _ => ended | None => player_turn end;
                   round := round (state c) + 1;
                   turn_index := turn_index (state c);
                   initiative_order := initiative_order (state c);
                   entities := final;
                   log := log (state c) |};
       events := all;
       drawn := drawn c2 |}.
Proof.
  intros Hv Hhero c2 final all.
  destruct (enemyPhase_shape c hero Hhero) as (Hst & _). fold c2 in Hst.
  unfold turnCycle. rewrite checkCombatEnd_verdict, Hv. cbv zeta.
  rewrite checkCombatEnd_verdict.
  rewrite (resolveEnemyTurn_phase _ hero) by exact Hhero.
  simpl (entities (state (with_state _ c))).
  rewrite enemyPhase_phase. fold c2.
  unfold clearAll, with_state, push; simpl.
  rewrite (map_ext _ aged aged_cleared).
  rewrite (flat_map_ext _ notices) by (intros e; apply notices_removed).
  fold final. unfold all.
  rewrite Hst. simpl.
  destruct (verdict final); simpl; rewrite <- ?app_assoc, ?app_nil_r; reflexivity.
Qed.

End SpecFacts.

(** ** Battles stay in order *)

Lemma updateFirst_cast (p : CombatEntity -> bool) (f : CombatEntity -> CombatEntity)
    (l : list CombatEntity) :
  (forall x, ent_type (f x) = ent_type x /\ ent_id (f x) = ent_id x) ->
  cast (updateFirst p f l) = cast l.
Proof.
  intros Hf. unfold cast. induction l as [|x l IH]; [reflexivity|]. simpl.
  destruct (p x); simpl; [|now rewrite IH].
  destruct (Hf x) as [-> ->]. reflexivity.
Qed.

Lemma same_but_hp_cast (l l' : list CombatEntity) :
  Forall2 same_but_hp l l' -> cast l' = cast l.
Proof.
  unfold cast. induction 1 as [|x y l l' Hxy _ IH]; [reflexivity|]. simpl.
  rewrite IH, Hxy. reflexivity.
Qed.

Lemma applySnapshot_cast (snap : option Snapshot) (s : CombatState) :
  cast (entities (applySnapshot snap s)) = cast (entities s).
Proof.
  unfold applySnapshot. destruct snap as [sn|]; [|reflexivity].
  destruct (List.find is_player (entities s)); [|reflexivity].
  destruct (snap_hp sn), (snap_mp sn); simpl; rewrite ?updateFirst_cast; try reflexivity;
    intros x; try (destruct (mp x), (mp_max x)); auto.
Qed.

Lemma dispatch_cast (rnd : nat -> Unit01) (intent : ActionIntent)
    (roll : option AttackRoll) (c : Ctx) :
  cast (entities (state (dispatch rnd intent roll c))) = cast (entities (state c)).
Proof.
  unfold dispatch. destruct (action intent); try reflexivity.
  - destruct (resolveAttack_frame rnd intent roll c) as (e & -> & Hs & _).
    simpl. now apply same_but_hp_cast.
  - unfold resolveDefend.
    destruct (List.find (has_id (actor intent)) (entities (state c))) as [who|];
      [|reflexivity].
    destruct (List.find (has_key "defending") (statuses who)); simpl; [reflexivity|].
    apply updateFirst_cast. auto.
Qed.

Lemma turnCycle_cast (rnd : nat -> Unit01) (c : Ctx) :
  cast (entities (state (turnCycle rnd c))) = cast (entities (state c)).
Proof.
  destruct (verdict (entities (state c))) as [r|] eqn:Hv.
  - rewrite (turnCycle_ended rnd c r Hv). reflexivity.
  - assert (Hhero : exists hero, List.find is_player (entities (state c)) = Some hero).
    { unfold verdict in Hv. destruct (List.find is_player _); [eauto | discriminate]. }
    destruct Hhero as (hero & Hhero).
    rewrite (turnCycle_round rnd c hero Hv Hhero). cbv zeta. simpl.
    destruct (enemyPhase_shape rnd c hero Hhero) as (_ & Hs & _).
    rewrite <- (same_but_hp_cast _ _ Hs). unfold cast. rewrite map_map. reflexivity.
Qed.

Lemma find_player_cast (l l' : list CombatEntity) (hero' : CombatEntity) :
  cast l' = cast l -> List.find is_player l' = Some hero' ->
  exists hero, List.find is_player l = Some hero /\ ent_id hero = ent_id hero'.
Proof.
  unfold cast. revert l'. induction l as [|x l IH]; intros [|y l'] Hc Hf;
    try discriminate. simpl in *.
  injection Hc as Ht Hi Hc. unfold is_player in *. rewrite <- Ht.
  destruct (ent_type y).
  - injection Hf as <-. eauto.
  - now apply (IH l').
Qed.

(** ** [resolveAction] *)

Lemma Returned_inj {A : Type} (a b : A) : Returned a = Returned b -> a = b.
Proof. now intros [= ->]. Qed.

Section ActionFacts.

Variable rnd : nat -> Unit01.

Lemma dispatch_events (intent : ActionIntent) (roll : option AttackRoll) (c : Ctx) :
  exists acted, events (dispatch rnd intent roll c) = events c ++ acted.
Proof.
  unfold dispatch. destruct (action intent); try (eexists; reflexivity).
  - destruct (truthy (target intent)) as [t|] eqn:Ht.
    2: { exists []. rewrite resolveAttack_unresolved by auto. now rewrite app_nil_r. }
    destruct (List.find (has_id (actor intent)) (entities (state c))) as [a|] eqn:Ha.
    2: { exists []. rewrite resolveAttack_unresolved by auto. now rewrite app_nil_r. }
    destruct (List.find (has_id t) (entities (state c))) as [g|] eqn:Hg.
    2: { exists []. rewrite resolveAttack_unresolved by eauto. now rewrite app_nil_r. }
    destruct (resolveAttack_events rnd intent roll c t a g Ht Ha Hg)
      as (hit & d20 & bonus & total & crit & fumble & dealt & Hev & _).
    rewrite Hev. eauto.
  - unfold resolveDefend.
    destruct (List.find (has_id (actor intent)) (entities (state c))).
    + destruct (List.find (has_key "defending") (statuses c0)); eexists; reflexivity.
    + exists []. now rewrite app_nil_r.
Qed.

(** [resolveAction] on a known campaign returns, and returns what the three
    stages compute. *)
Lemma resolveAction_stages (battles : gmap string CombatState) (cid : string)
    (intent : ActionIntent) (snap : option Snapshot) (roll : option AttackRoll)
    (n0 : nat) (s0 : CombatState) :
  battles !! cid = Some s0 ->
  let c0 := {| state := applySnapshot snap s0; events := [TURN_START (actor intent)];
               drawn := n0 |} in
  let c2 := turnCycle rnd (dispatch rnd intent roll c0) in
  resolveAction rnd battles cid intent snap roll n0 =
    Returned (<[cid := appendLog (state c2) (events c2)]> battles,
              (appendLog (state c2) (events c2), events c2), drawn c2).
Proof. intros H. unfold resolveAction. rewrite H. reflexivity. Qed.

(** A call in which the combat goes on after the player's action. *)
Lemma resolveAction_round (battles : gmap string CombatState) (cid : string)
    (intent : ActionIntent) (snap : option Snapshot) (roll : option AttackRoll)
    (n0 : nat) (s0 : CombatState) :
  battles !! cid = Some s0 ->
  let c1 := dispatch rnd intent roll
              {| state := applySnapshot snap s0; events := [TURN_START (actor intent)];
                 drawn := n0 |} in
  verdict (entities (state c1)) = None ->
  exists hero : CombatEntity,
    let foes := livingEnemies (entities (state c1)) in
    let c2 := enemyPhase rnd (ent_id hero) foes c1 in
    let final := map aged (entities (state c2)) in
    let removed := flat_map notices (entities (state c2)) in
    let ending := match verdict final with Some r => [COMBAT_ENDED r] | None => [] end in
    let all := events c2 ++ [TURN_START (ent_id hero)] ++ removed ++ ending in
    List.find is_player (entities (state c1)) = Some hero
    /\ resolveAction rnd battles cid intent snap roll n0 =
         Returned (<[cid := nextRound s0 final all]> battles,
                   (nextRound s0 final all, all), drawn c2)
    /\ (exists acted, events c1 = TURN_START (actor intent) :: acted)
    /\ (exists attacks,
          events c2 = events c1 ++ attacks
          /\ (ent_id hero <> "" ->
              enemy_phase_trace (ent_id hero) (map ent_id foes) attacks)
          /\ (ent_id hero = "" ->
              attacks = map TURN_START (map ent_id foes)
              /\ entities (state c2) = entities (state c1)
              /\ drawn c2 = drawn c1))
    /\ Forall2 same_but_hp (entities (state c1)) (entities (state c2))
    /\ (Forall distinct_keys (entities s0) ->
        removed =
          flat_map
            (fun e => map (fun st => STATUS_REMOVED (ent_id e) (key st))
                        (expiring (statuses e)))
            (entities (state c2)))
    /\ (player_named (entities s0) -> ent_id hero <> "").
Proof.
  intros Hb c1 Hv.
  assert (Hhero : exists hero, List.find is_player (entities (state c1)) = Some hero).
  { unfold verdict in Hv. destruct (List.find is_player _); [eauto | discriminate]. }
  destruct Hhero as (hero & Hhero). exists hero. cbv zeta.
  destruct (enemyPhase_shape rnd c1 hero Hhero) as (_ & Hs & _ & Hattacks).
  destruct (dispatch_events intent roll
              {| state := applySnapshot snap s0; events := [TURN_START (actor intent)];
                 drawn := n0 |}) as (acted & Hacted).
  fold c1 in Hacted. simpl in Hacted.
  destruct (dispatch_frame rnd intent roll
              {| state := applySnapshot snap s0; events := [TURN_START (actor intent)];
                 drawn := n0 |}) as (e2 & Hs2 & _).
  fold c1 in Hs2. simpl in Hs2.
  destruct (applySnapshot_frame snap s0) as (e1 & Hs1 & _).
  split; [exact Hhero|]. split.
  { rewrite (resolveAction_stages _ _ intent snap roll n0 _ Hb). cbv zeta. fold c1.
    rewrite (turnCycle_round rnd c1 hero Hv Hhero). cbv zeta. simpl.
    unfold appendLog, nextRound. simpl. rewrite Hs2, Hs1. reflexivity. }
  split; [eauto|]. split; [exact Hattacks|]. split; [exact Hs|]. split.
  - intros Hd.
    assert (Hkeys : Forall distinct_keys
                      (entities (state (enemyPhase rnd (ent_id hero)
                                          (livingEnemies (entities (state c1))) c1)))).
    { eapply Forall2_keys_all; [apply same_but_hp_keys; exact Hs|].
      eapply Forall2_keys_all; [apply dispatch_keys|]. simpl.
      eapply Forall2_keys_all; [apply applySnapshot_keys | exact Hd]. }
    clear -Hkeys. induction Hkeys as [|e l He _ IH]; [reflexivity|].
    simpl. now rewrite IH, (notices_distinct e He).
  - intros Hnamed.
    apply (find_player_cast (entities s0)) in Hhero as (hero0 & Hhero0 & <-);
      [now apply Hnamed|].
    unfold c1. rewrite dispatch_cast. simpl. apply applySnapshot_cast.
Qed.





(** C10. An [attack] whose target is absent, or whose target or actor names
    no entity of the battle, resolves to nothing: the player's action leaves
    the context as it was (no entity changes, nothing is pushed after the
    opening [TURN_START], no die is rolled). The call still returns and
    still runs its closing block on that unchanged context. If the battle
    is already decided, the call only reports the end: the round is not
    counted, no enemy acts and no status decays. Otherwise the turn cycle
    proceeds: the living enemies take their turns in roster order (their
    attacks on the player resolving when the player's id is not the empty
    string), the round goes up by one, every status has its duration lowered
    by one and is dropped when it does not outlast this, and the end check
    runs. *)
Theorem unresolved_attack_cycle (battles : gmap string CombatState) (cid : string)
    (intent : ActionIntent) (snap : option Snapshot) (roll : option AttackRoll)
    (n0 : nat) (s0 : CombatState) :
  battles !! cid = Some s0 ->
  action intent = attack ->
  (truthy (target intent) = None
   \/ List.find (has_id (actor intent)) (entities s0) = None
   \/ (exists t, truthy (target intent) = Some t
                 /\ List.find (has_id t) (entities s0) = None)) ->
  let c0 := {| state := applySnapshot snap s0; events := [TURN_START (actor intent)];
               drawn := n0 |} in
  dispatch rnd intent roll c0 = c0
  /\ performs rnd intent roll c0 c0
  /\ exists (s' : CombatState) (all : list CombatEvent) (n' : nat),
       resolveAction rnd battles cid intent snap roll n0 =
         Returned (<[cid := s']> battles, (s', all), n')
       /\ s' = appendLog (state (turnCycle rnd c0)) all
       /\ all = events (turnCycle rnd c0)
       /\ (forall r, verdict (entities (applySnapshot snap s0)) = Some r ->
            all = [TURN_START (actor intent); COMBAT_ENDED r]
            /\ entities s' = entities (applySnapshot snap s0)
            /\ round s' = round s0
            /\ phase s' = ended
            /\ n' = n0)
       /\ (verdict (entities (applySnapshot snap s0)) = None ->
            exists hero : CombatEntity,
              let foes := livingEnemies (entities (applySnapshot snap s0)) in
              let c2 := enemyPhase rnd (ent_id hero) foes c0 in
              let final := map aged (entities (state c2)) in
              let removed := flat_map notices (entities (state c2)) in
              let ending :=
                match verdict final with Some r => [COMBAT_ENDED r] | None => [] end in
              List.find is_player (entities (applySnapshot snap s0)) = Some hero
              /\ all = events c2 ++ [TURN_START (ent_id hero)] ++ removed ++ ending
              /\ s' = nextRound s0 final all
              /\ n' = drawn c2
              /\ (exists attacks,
                    events c2 = TURN_START (actor intent) :: attacks
                    /\ (ent_id hero <> "" ->
                        enemy_phase_trace (ent_id hero) (map ent_id foes) attacks)
                    /\ (ent_id hero = "" ->
                        attacks = map TURN_START (map ent_id foes)
                        /\ entities (state c2) = entities (applySnapshot snap s0)
                        /\ drawn c2 = n0))
              /\ Forall2 same_but_hp (entities (applySnapshot snap s0))
                   (entities (state c2))
              /\ (player_named (entities s0) -> ent_id hero <> "")).
Proof.
  intros Hb Hact Hbad c0.
  destruct (applySnapshot_frame snap s0) as (e1 & Hs1 & Hids & _).
  assert (Hnoop : dispatch rnd intent roll c0 = c0).
  { unfold dispatch. rewrite Hact. apply resolveAttack_unresolved.
    destruct Hbad as [H|[H|(t & Ht & H)]]; [now left | right; left | right; right].
    - simpl. rewrite Hs1. simpl.
      eapply find_has_id_ids; [|exact H]. now rewrite Hids.
    - exists t. split; [exact Ht|]. simpl. rewrite Hs1. simpl.
      eapply find_has_id_ids; [|exact H]. now rewrite Hids. }
  split; [exact Hnoop|].
  split; [rewrite <- Hnoop at 2; apply dispatch_performs|].
  pose proof (resolveAction_stages battles cid intent snap roll n0 s0 Hb) as Hres.
  cbv zeta in Hres. fold c0 in Hres. rewrite Hnoop in Hres.
  eexists _, _, _.
  split; [exact Hres|].
  split; [reflexivity|]. split; [reflexivity|]. split.
  - intros r Hv. rewrite (turnCycle_ended rnd c0 r Hv). simpl. rewrite Hs1. auto.
  - intros Hv.
    pose proof (resolveAction_round battles cid intent snap roll n0 s0 Hb) as Hround.
    cbv zeta in Hround. fold c0 in Hround. rewrite Hnoop in Hround.
    destruct (Hround Hv) as (hero & Hhero & Hcall & _ & Hattacks & Hs & _ & Hnamed).
    rewrite Hres in Hcall. apply Returned_inj in Hcall.
    pose proof (f_equal (fun r => fst (snd (fst r))) Hcall) as Hstate.
    pose proof (f_equal (fun r => snd (snd (fst r))) Hcall) as Hall.
    pose proof (f_equal snd Hcall) as Hn. cbv beta in Hstate, Hall, Hn.
    cbn [fst snd] in Hstate, Hall, Hn.
    exists hero. cbv zeta.
    split; [exact Hhero|]. split; [exact Hall|].
    split; [etransitivity; [exact Hstate|]; f_equal; symmetry; exact Hall|].
    split; [exact Hn|].
    split; [exact Hattacks|]. split; [exact Hs | exact Hnamed].
Qed.

End ActionFacts.

(** [resolveAction] leaves a battle in order as it found it. *)
Lemma resolveAction_order (rnd : nat -> Unit01) (battles : gmap string CombatState)
    (cid : string) (intent : ActionIntent) (snap : option Snapshot)
    (roll : option AttackRoll) (n0 : nat) (s0 : CombatState) :
  battles !! cid = Some s0 ->
  in_order s0 ->
  exists s' evs n',
    resolveAction rnd battles cid intent snap roll n0 =
      Returned (<[cid := s']> battles, (s', evs), n')
    /\ in_order s'.
Proof.
  intros Hb (Hkeys & Hnamed).
  destruct (resolveAction_distinct rnd battles cid intent snap roll n0 s0 Hb Hkeys)
    as (s' & evs & n' & Hres & Hd).
  exists s', evs, n'. split; [exact Hres|]. split; [exact Hd|].
  rewrite (resolveAction_stages rnd battles cid intent snap roll n0 s0 Hb) in Hres.
  cbv zeta in Hres. apply Returned_inj in Hres.
  pose proof (f_equal (fun r => fst (snd (fst r))) Hres) as Hs'. cbn [fst snd] in Hs'.
  intros hero' Hhero'. rewrite <- Hs' in Hhero'. simpl in Hhero'.
  apply (find_player_cast (entities s0)) in Hhero' as (hero & Hhero & <-);
    [now apply Hnamed|].
  rewrite turnCycle_cast, dispatch_cast. simpl. apply applySnapshot_cast.
Qed.



Lemma unresolved_attack_cycle_witness :
  let c0 := {| state := applySnapshot None (Sample.duel 20 [] 12); events := [TURN_START (actor (Sample.act attack "player" (Some "nobody")))];
               drawn := 0%nat |} in
  dispatch (Sample.dice [(15, 20); (4, 6)]) (Sample.act attack "player" (Some "nobody")) None c0 = c0
  /\ performs (Sample.dice [(15, 20); (4, 6)]) (Sample.act attack "player" (Some "nobody")) None c0 c0
  /\ exists (s' : CombatState) (all : list CombatEvent) (n' : nat),
       resolveAction (Sample.dice [(15, 20); (4, 6)]) (Sample.table (Sample.duel 20 [] 12)) "c" (Sample.act attack "player" (Some "nobody")) None None 0%nat =
         Returned (<["c" := s']> (Sample.table (Sample.duel 20 [] 12)), (s', all), n')
       /\ s' = appendLog (state (turnCycle (Sample.dice [(15, 20); (4, 6)]) c0)) all
       /\ all = events (turnCycle (Sample.dice [(15, 20); (4, 6)]) c0)
       /\ (forall r, verdict (entities (applySnapshot None (Sample.duel 20 [] 12))) = Some r ->
            all = [TURN_START (actor (Sample.act attack "player" (Some "nobody"))); COMBAT_ENDED r]
            /\ entities s' = entities (applySnapshot None (Sample.duel 20 [] 12))
            /\ round s' = round (Sample.duel 20 [] 12)
            /\ phase s' = ended
            /\ n' = 0%nat)
       /\ (verdict (entities (applySnapshot None (Sample.duel 20 [] 12))) = None ->
            exists hero : CombatEntity,
              let foes := livingEnemies (entities (applySnapshot None (Sample.duel 20 [] 12))) in
              let c2 := enemyPhase (Sample.dice [(15, 20); (4, 6)]) (ent_id hero) foes c0 in
              let final := map aged (entities (state c2)) in
              let removed := flat_map notices (entities (state c2)) in
              let ending :=
                match verdict final with Some r => [COMBAT_ENDED r] | None => [] end in
              List.find is_player (entities (applySnapshot None (Sample.duel 20 [] 12))) = Some hero
              /\ all = events c2 ++ [TURN_START (ent_id hero)] ++ removed ++ ending
              /\ s' = nextRound (Sample.duel 20 [] 12) final all
              /\ n' = drawn c2
              /\ (exists attacks,
                    events c2 = TURN_START (actor (Sample.act attack "player" (Some "nobody"))) :: attacks
                    /\ (ent_id hero <> "" ->
                        enemy_phase_trace (ent_id hero) (map ent_id foes) attacks)
                    /\ (ent_id hero = "" ->
                        attacks = map TURN_START (map ent_id foes)
                        /\ entities (state c2) = entities (applySnapshot None (Sample.duel 20 [] 12))
                        /\ drawn c2 = 0%nat))
              /\ Forall2 same_but_hp (entities (applySnapshot None (Sample.duel 20 [] 12)))
                   (entities (state c2))
              /\ (player_named (entities (Sample.duel 20 [] 12)) -> ent_id hero <> "")).
Proof.
  apply (unresolved_attack_cycle (Sample.dice [(15, 20); (4, 6)]) (Sample.table (Sample.duel 20 [] 12)) "c"
           (Sample.act attack "player" (Some "nobody")) None None 0%nat
           (Sample.duel 20 [] 12)).
  - reflexivity.
  - reflexivity.
  - right; right. exists "nobody". split; reflexivity.
Defined.



(** C10 (what the code does). The goblin is at 0 hit points and the player
    still carries a [defending] status of one turn. The player attacks
    somebody who is not in the battle. Whatever the dice, the call reports
    the victory and nothing else: no enemy turn, the round counter stays at
    1, and the status is neither decremented nor removed. *)
Theorem decided_battle_skips_the_cycle :
  List.find (has_id "nobody") (entities (Sample.duel 20 Sample.guarding 0)) = None
  /\ forall rnd : nat -> Unit01,
       exists b s,
         resolveAction rnd (Sample.table (Sample.duel 20 Sample.guarding 0)) "c"
           (Sample.act attack "player" (Some "nobody")) None None 0 =
           Returned (b, (s, [TURN_START "player"; COMBAT_ENDED victory]), 0%nat)
         /\ round s = round (Sample.duel 20 Sample.guarding 0)
         /\ round s = 1
         /\ entities s = entities (Sample.duel 20 Sample.guarding 0)
         /\ map statuses (entities s) = [Sample.guarding; []].
Proof.
  split; [reflexivity|].
  intros rnd. eexists _, _. split; [reflexivity|]. repeat split; reflexivity.
Qed.

(** C9 (what the code does). A player with 3 hit points defends; the enemy
    hits (d20 shows 15, d6 shows 6: base 7, halved to 3) and brings the
    player to 0: the events of the call contain [ENEMY_DEFEATED] naming the
    player, an entity of type [player]. *)
Theorem defeated_event_names_player :
  exists b s evs n,
    resolveAction (Sample.dice [(15, 20); (6, 6)]) (Sample.table (Sample.duel 3 [] 12)) "c"
      (Sample.act defend "player" None) None None 0 = Returned (b, (s, evs), n)
    /\ evs = [TURN_START "player"; STATUS_APPLIED "player" "defending" "turn";
              TURN_START "enemy-0";
              ATTACK_RESOLVED "enemy-0" "player" true 15 0 15 false false 10;
              DAMAGE_APPLIED "player" 3 "enemy-0" 0;
              ENEMY_DEFEATED "player";
              TURN_START "player"; STATUS_REMOVED "player" "defending";
              COMBAT_ENDED defeat]
    /\ map ent_type (List.filter (has_id "player") (entities s)) = [player].
Proof.
  eexists _, _, _, _. split; [reflexivity|]. split; reflexivity.
Qed.

(** ** The annotator *)

(** C7 (counterexample). "I ask for water" opens with a speech lead-in, holds
    a request marker and no past-reference marker; it is not tagged
    [SPEECH]. *)
Lemma speech_does_not_outrank_request :
  ~ (forall (last : option Intent.LastResolvedAction) (seg : Intent.Segment),
       Intent.detectPastRef (Intent.text seg) = false ->
       Intent.detectSpeech (Intent.text seg) = true ->
       Intent.detectRequest (Intent.text seg) = true ->
       Intent.hint (Intent.annotate last seg) = Some Intent.SPEECH).
Proof.
  intros H.
  specialize (H None (Intent.segment "seg-1" (JS.str "I ask for water"))
                eq_refl eq_refl eq_refl).
  vm_compute in H. discriminate H.
Qed.

(** C7 (as amended). [annotateSegments] gives every segment the hint chosen
    by the fixed priority PAST_REF > REQUEST > SPEECH > ACTION_NOW > UNKNOWN:
    a request marker outranks a speech marker. *)
Theorem hint_priority (segments : list Intent.Segment)
    (last : option Intent.LastResolvedAction) :
  map Intent.hint (Intent.annotateSegments segments last) =
    map (fun seg =>
           Some (if Intent.detectPastRef (Intent.text seg) then Intent.PAST_REF
                 else if Intent.detectRequest (Intent.text seg) then Intent.REQUEST
                 else if Intent.detectSpeech (Intent.text seg) then Intent.SPEECH
                 else if Intent.detectActionNow (Intent.text seg) then Intent.ACTION_NOW
                 else Intent.UNKNOWN))
      segments.
Proof.
  unfold Intent.annotateSegments. rewrite map_map. apply map_ext. intros seg.
  unfold Intent.annotate.
  destruct (Intent.detectPastRef (Intent.text seg));
    destruct (Intent.hasAnchorMatch _ last);
    destruct (Intent.detectSpeech (Intent.text seg));
    destruct (Intent.detectRequest (Intent.text seg));
    destruct (Intent.detectActionNow (Intent.text seg));
    simpl;
    repeat match goal with
           | |- context [if ?b then _ else _] => destruct b
           end;
    reflexivity.
Qed.

(** ** The status normalizer *)

(** C8 (what the code does). A character already carries [poisoned]; a
    proposal spells the id [Poisoned]. The filter on active ids compares the
    id as proposed, the entry passes, and normalization turns it into
    [poisoned]: [apply] returns an entry whose id is already active. *)
Theorem active_status_applied_again :
  map Status.id Status.afflicted = [JS.str "poisoned"]
  /\ map Status.id
       (Status.out_apply
          (Status.normalizeStatusUpdate (Status.proposing (Status.poisoning "Poisoned"))
             {| Status.active_statuses := Some Status.afflicted |})) =
     [JS.str "poisoned"].
Proof. split; vm_compute; reflexivity. Qed.

Lemma mapKeep_length {A B : Type} (f : A -> option B) (l : list A) :
  (List.length (Status.mapKeep f l) <= List.length l)%nat.
Proof.
  induction l as [|x l IH]; simpl; [lia|]. destruct (f x); simpl; lia.
Qed.

Lemma mapKeep_in {A B : Type} (f : A -> option B) (l : list A) (y : B) :
  In y (Status.mapKeep f l) <-> exists x, In x l /\ f x = Some y.
Proof.
  induction l as [|x l IH]; simpl.
  - split; [tauto | intros (x & [] & _)].
  - destruct (f x) as [y'|] eqn:Hfx; simpl; rewrite ?IH; split.
    + intros [<-|(x' & Hin & Hx')]; eauto.
    + intros (x' & [<-|Hin] & Hx'); [left; congruence | right; eauto].
    + intros (x' & Hin & Hx'); eauto.
    + intros (x' & [<-|Hin] & Hx'); [congruence | eauto].
Qed.

(** [apply] never holds more than one entry. *)
Lemma apply_at_most_one (payload : option Status.Payload) (st : Status.StatusStateInput) :
  (List.length (Status.out_apply (Status.normalizeStatusUpdate payload st)) <= 1)%nat.
Proof.
  unfold Status.normalizeStatusUpdate. simpl.
  match goal with |- (List.length (Status.mapKeep _ ?l) <= 1)%nat => set (pruned := l) end.
  assert (Hp : (List.length pruned <= 1)%nat).
  { subst pruned.
    match goal with
    | |- context [if (1 <? List.length ?l)%nat then _ else _] =>
      destruct (Nat.ltb_spec 1 (List.length l))
    end.
    - rewrite length_take. lia.
    - lia. }
  pose proof (mapKeep_length Status.normalizeEntry pruned). lia.
Qed.

Lemma lookup_some_in {A : Type} (k : JS.jstring) (table : list (string * A)) (v : A) :
  Status.lookup k table = Some v -> exists k', In (k', v) table /\ JS.str k' = k.
Proof.
  induction table as [|[k' v'] table IH]; simpl; [discriminate|].
  unfold JS.jeqb. case_bool_decide as Hk.
  - intros [= <-]. eauto.
  - intros H. destruct (IH H) as (k'' & Hin & Hk''). eauto.
Qed.

(** In [canonicalStatusMap] every key maps to an entry carrying that key as
    its id. *)
Lemma canonical_key_is_id (k : JS.jstring) (c : string * string * Status.StatusType) :
  Status.lookup k Status.canonicalStatusMap = Some c ->
  JS.str (fst (fst c)) = k /\ In k Status.catalog.
Proof.
  intros H. apply lookup_some_in in H as (k' & Hin & <-).
  assert (Hall : Forall (fun entry => fst (fst (snd entry)) = fst entry)
                   Status.canonicalStatusMap) by (repeat constructor).
  rewrite Forall_forall in Hall. pose proof (Hall _ (proj2 (list_elem_of_In _ _) Hin)) as Hk.
  simpl in Hk. rewrite Hk. split; [reflexivity|].
  unfold Status.catalog. apply List.in_map_iff. exists (k', c). auto.
Qed.

Lemma startsWith_self (s : JS.jstring) : JS.startsWith s s = true.
Proof. induction s; simpl; [reflexivity|]. now rewrite N.eqb_refl. Qed.

#[local] Arguments Status.lookup : simpl never.
#[local] Arguments Status.buildStatusDefinition : simpl never.
#[local] Arguments Status.rank : simpl never.
#[local] Arguments JS.test : simpl never.
#[local] Arguments JS.startsWith : simpl never.

(** What [normalizeEntry] lets through: the id is one of the catalog, and
    name, type, mechanics, modifiers, restrictions and narration cues are
    those of the canonical definition of that id (at that level or tier),
    whatever the proposal said; an exhaustion entry has a level from 1 to 6,
    a corruption entry a tier from 1 to 3. *)
Lemma normalizeEntry_canonical (entry : option Status.Proposal) (e : Status.StatusEffect) :
  Status.normalizeEntry entry = Some e ->
  In (Status.id e) Status.catalog
  /\ (exists d,
        Status.buildStatusDefinition (Status.id e) (Status.severity e) = Some d
        /\ Status.name e = Status.def_name d
        /\ Status.type e = Status.def_type d
        /\ Status.mechanics e = JS.str (Status.def_mechanics d)
        /\ Status.modifiers e = Status.def_modifiers d
        /\ Status.restrictions e = Status.def_restrictions d
        /\ Status.narrationCues e = Status.def_narrationCues d)
  /\ (Status.id e = JS.str "exhaustion" ->
      exists level, Status.severity e = Some level /\ 1 <= level <= 6)
  /\ (Status.id e = JS.str "corruption" ->
      exists tier, Status.severity e = Some tier /\ 1 <= tier <= 3).
Proof.
  unfold Status.normalizeEntry. intros H.
  destruct entry as [p|]; simpl in H; [|discriminate].
  destruct (Status.present (Status.p_id p)) as [i|]; simpl in H; [|discriminate].
  destruct (Status.present (Status.p_name p)) as [n|]; simpl in H; [|discriminate].
  destruct (Status.present (Status.p_mechanics p)) as [m|]; simpl in H; [|discriminate].
  destruct (_ || _) in H; [discriminate|].
  destruct (_ || _) in H; [discriminate|].
  destruct (negb _) in H; [discriminate|].
  destruct (negb _) in H; [discriminate|].
  destruct (Status.present (Status.p_durationType p)) as [dt|]; simpl in H; [|discriminate].
  destruct (negb _) in H; [discriminate|].
  set (rawId := JS.toLowerCase (JS.trim i)) in *.
  set (rawName := JS.trim n) in *.
  set (sev := Qfloor <$> Status.p_severity p) in *.
  match type of H with
  | context [?pick ≫= _] => destruct pick as [[nid nsev]|] eqn:Hpick
  end; simpl in H; [|discriminate].
  destruct (Status.buildStatusDefinition nid nsev) as [d|] eqn:Hd; simpl in H; [|discriminate].
  injection H as <-. simpl.
  assert (Hshape :
    (nid = JS.str "exhaustion" /\ exists l, nsev = Some l /\ 1 <= l <= 6)
    \/ (nid = JS.str "corruption" /\ exists t, nsev = Some t /\ 1 <= t <= 3)
    \/ (In nid Status.catalog
        /\ nid <> JS.str "exhaustion" /\ nid <> JS.str "corruption")).
  { destruct (JS.startsWith rawId (JS.str "exhaustion") || _) eqn:Hex in Hpick.
    - left. destruct (Status.rank rawId rawName sev) as [l|]; [|discriminate].
      destruct (Z.eqb_spec l 0); [discriminate|].
      destruct (Z.ltb_spec l 1); [discriminate|].
      destruct (Z.ltb_spec 6 l); [discriminate|].
      simpl in Hpick. injection Hpick as <- <-.
      split; [reflexivity|]. exists l. split; [reflexivity|lia].
    - destruct (JS.startsWith rawId (JS.str "corruption") || _) eqn:Hcor in Hpick.
      + right; left. destruct (Status.rank rawId rawName sev) as [l|]; [|discriminate].
        destruct (Z.eqb_spec l 0); [discriminate|].
        destruct (Z.ltb_spec l 1); [discriminate|].
        destruct (Z.ltb_spec 3 l); [discriminate|].
        simpl in Hpick. injection Hpick as <- <-.
        split; [reflexivity|]. exists l. split; [reflexivity|lia].
      + right; right.
        destruct (Status.lookup rawId Status.canonicalStatusMap) as [c|] eqn:Hc;
          simpl in Hpick; [|discriminate].
        injection Hpick as <- <-.
        destruct (canonical_key_is_id _ _ Hc) as [Hkey Hcat]. rewrite Hkey.
        apply orb_false_elim in Hex as [Hex _]. apply orb_false_elim in Hcor as [Hcor _].
        split; [exact Hcat|]. split; intros Heq; rewrite Heq, startsWith_self in *;
          discriminate. }
  split.
  { destruct Hshape as [[-> _]|[[-> _]|[Hc _]]]; [vm_compute; tauto | vm_compute; tauto | exact Hc]. }
  split.
  { exists d. repeat split; reflexivity || exact Hd. }
  split.
  - intros Heq. destruct Hshape as [[_ Hl]|[[Hc _]|(_ & Hne & _)]]; [exact Hl | | contradiction].
    rewrite Hc in Heq. vm_compute in Heq. discriminate.
  - intros Heq. destruct Hshape as [[He _]|[[_ Hl]|(_ & _ & Hne)]]; [| exact Hl | contradiction].
    rewrite He in Heq. vm_compute in Heq. discriminate.
Qed.

(** Every entry returned in [apply] or [update] is canonical in the sense of
    the previous lemma, and an entry returned in [apply] comes from a
    proposal whose id, as proposed, is not among the active ids. *)
Lemma normalizeStatusUpdate_canonical (payload : option Status.Payload)
    (st : Status.StatusStateInput) (e : Status.StatusEffect) :
  In e (Status.out_apply (Status.normalizeStatusUpdate payload st))
  \/ In e (Status.out_update (Status.normalizeStatusUpdate payload st)) ->
  exists entry, Status.normalizeEntry entry = Some e.
Proof.
  unfold Status.normalizeStatusUpdate; simpl.
  intros [H|H]; apply mapKeep_in in H as (x & _ & Hx); eauto.
Qed.

Lemma apply_raw_id_not_active (payload : option Status.Payload)
    (st : Status.StatusStateInput) (e : Status.StatusEffect) :
  In e (Status.out_apply (Status.normalizeStatusUpdate payload st)) ->
  exists p raw,
    Status.normalizeEntry (Some p) = Some e
    /\ Status.p_id p = Some raw
    /\ ~ In raw (map Status.id (default [] (Status.active_statuses st))).
Proof.
  unfold Status.normalizeStatusUpdate; simpl. intros H.
  apply mapKeep_in in H as (x & Hin & Hx).
  assert (Hin' : In x (List.filter
                         (fun entry =>
                            match entry ≫= Status.p_id with
                            | Some i =>
                              negb (bool_decide
                                      (i ∈ (list_to_set
                                              (map Status.id
                                                 (default [] (Status.active_statuses st)))
                                            : gset JS.jstring)))
                            | None => true
                            end)
                         (List.filter
                            (fun entry =>
                               match entry with
                               | Some e0 =>
                                 match Status.present (Status.p_id e0),
                                       Status.present (Status.p_name e0) with
                                 | Some _, Some _ => true
                                 | _, _ => false
                                 end
                               | None => false
                               end)
                            (default [] (payload ≫= Status.apply))))).
  { match type of Hin with
    | In _ (if ?c then _ else _) => destruct c
    end; [|exact Hin].
    apply list_elem_of_In. apply list_elem_of_In in Hin.
    exact (subseteq_take _ _ _ Hin). }
  apply List.filter_In in Hin' as [Hin1 Hact].
  apply List.filter_In in Hin1 as [_ Hpres].
  destruct x as [p|]; [|discriminate].
  destruct (Status.p_id p) as [raw|] eqn:Hraw; simpl in Hpres; [|discriminate].
  exists p, raw. split; [exact Hx|]. split; [exact Hraw|].
  simpl in Hact. rewrite Hraw in Hact. simpl in Hact.
  apply negb_true_iff in Hact. apply bool_decide_eq_false in Hact.
  intros Hin2. apply Hact. apply elem_of_list_to_set. now apply list_elem_of_In.
Qed.

(** ** Pending checks *)




Section RouteFacts.

Variable rnd : nat -> Unit01.
Variable segmentMessage : JS.jstring -> list Intent.Segment.
Variable classifyIntent :
  JS.jstring -> option string -> Routes.Participants -> option JS.jstring ->
  Routes.ActionIntent.
Variable resolveCheck :
  Routes.ActionIntent -> JS.jstring -> option JS.jstring -> option Routes.PendingCheck.
Variable summarizeActionText : JS.jstring -> JS.jstring.
Variable detectTarget : JS.jstring -> Routes.Participants -> option string.
Variable resolveTargetLabel : option string -> Routes.Participants -> string.
Variable inferCombatProfile : JS.jstring -> JS.jstring * JS.jstring * JS.jstring.

Local Abbreviation handle :=
  (Routes.dmResponse rnd segmentMessage classifyIntent resolveCheck summarizeActionText
     detectTarget resolveTargetLabel inferCombatProfile).
Local Abbreviation newAction :=
  (Routes.newAction segmentMessage classifyIntent resolveCheck summarizeActionText
     detectTarget resolveTargetLabel inferCombatProfile).
Local Abbreviation decisionOf :=
  (Routes.decide segmentMessage classifyIntent resolveCheck summarizeActionText).
Local Abbreviation reachable :=
  (Routes.reachable rnd segmentMessage classifyIntent resolveCheck summarizeActionText
     detectTarget resolveTargetLabel inferCombatProfile).

















(** *** Battles reached through the routes are in order *)

Lemma tidy_insert (table : gmap string CombatState) (key : string) (b : CombatState) :
  Routes.tidy table -> in_order b ->
  Routes.tidy (<[key := b]> table).
Proof.
  intros Ht Hb k b' Hk. destruct (decide (key = k)) as [->|Hne].
  - rewrite lookup_insert_eq in Hk. now injection Hk as <-.
  - rewrite lookup_insert_ne in Hk by exact Hne. eauto.
Qed.

Lemma resolveAction_tidy (table table' : gmap string CombatState) (key : string)
    (intent : Combat.ActionIntent) (snap : option Snapshot) (roll : option AttackRoll)
    (n n' : nat) (b : CombatState) (evs : list CombatEvent) :
  Routes.tidy table ->
  resolveAction rnd table key intent snap roll n = Returned (table', (b, evs), n') ->
  Routes.tidy table'.
Proof.
  intros Ht H.
  destruct (table !! key) as [b0|] eqn:Hk.
  - destruct (resolveAction_order rnd table key intent snap roll n b0 Hk (Ht _ _ Hk))
      as (s' & evs' & n'' & Heq & Hd).
    rewrite Heq in H. injection H as <- <- <- <-. now apply tidy_insert.
  - unfold resolveAction in H. rewrite Hk in H. discriminate.
Qed.

Lemma startBattle_tidy (key : string) (who label : option string) (points mana : Num) :
  in_order (startBattle key (Routes.protagonist who points mana) [Routes.opponent label]).
Proof.
  split; [apply startBattle_distinct; [reflexivity | repeat constructor]|].
  intros hero [= <-]. discriminate.
Qed.

Lemma recordResolved_battles (key : string) (pending : Routes.PendingCheck)
    (dom : string) (now : Z) (s : Routes.Server) :
  Routes.battles (Routes.recordResolved key pending dom now s) = Routes.battles s.
Proof. unfold Routes.recordResolved. now destruct (Status.present _). Qed.

Lemma newAction_tidy (key : string) (text : JS.jstring) (gs : Routes.GameState)
    (req : Routes.Request) (ext : Routes.External) (s : Routes.Server) :
  Routes.tidy (Routes.battles s) ->
  Routes.tidy (Routes.battles (fst (newAction key text gs req ext s))).
Proof.
  intros Ht. unfold Routes.newAction. cbv zeta.
  match goal with
  | |- context [match ?pc with Some check => _ | None => _ end] =>
    destruct pc as [check|]
  end.
  - simpl. destruct (Routes.pc_type check), (Routes.battles s !! key); simpl; try exact Ht.
    apply tidy_insert; [exact Ht | apply startBattle_tidy].
  - destruct (Routes.ext_dm ext); simpl;
      repeat match goal with
             | |- context [match ?x with _ => _ end] => destruct x
             end; exact Ht.
Qed.

Lemma dmResponse_tidy (req : Routes.Request) (ext : Routes.External) (s : Routes.Server) :
  Routes.tidy (Routes.battles s) -> Routes.tidy (Routes.battles (fst (handle req ext s))).
Proof.
  intros Ht. unfold Routes.dmResponse.
  destruct (Status.present (Routes.playerAction req)) as [text|]; [|exact Ht].
  cbv zeta. unfold Routes.resolvePending.
  destruct (Routes.rollResult req) as [roll|];
    [destruct (truthy (Routes.pendingCheckId req)) as [cid|]|].
  - simpl Routes.pendingChecks.
    destruct (Routes.pendingChecks s !! Routes.keyOf req) as [pending|];
      [destruct (String.eqb (Routes.pc_id pending) cid)|].
    + destruct (Routes.pc_type pending);
        try (destruct (Routes.ext_dm ext); simpl; rewrite ?recordResolved_battles; exact Ht).
      unfold Routes.resolveAttackRoll. simpl Routes.battles. simpl Routes.drawn.
      match goal with
      | |- context [match ?m !! ?k with Some b => (?t1, b) | None => ?e end] =>
        assert (Hpair : Routes.tidy (fst (match m !! k with Some b => (t1, b) | None => e end)))
      end.
      { destruct (Routes.battles s !! Routes.keyOf req); simpl; [exact Ht|].
        apply tidy_insert; [exact Ht | apply startBattle_tidy]. }
      match goal with
      | H : Routes.tidy (fst ?p) |- _ => destruct p as [table b0]
      end.
      simpl in Hpair.
      destruct (resolveAction _ _ _ _ _ _ _) as [[[t' [b' evs]] n']|] eqn:Hres; simpl.
      * apply resolveAction_tidy in Hres; [|exact Hpair].
        destruct (Routes.ext_combatNarration ext); simpl;
          rewrite ?recordResolved_battles; exact Hres.
      * exact Hpair.
    + now apply newAction_tidy.
    + now apply newAction_tidy.
  - now apply newAction_tidy.
  - now apply newAction_tidy.
Qed.

Lemma truthy_named (o : option string) (s : string) : truthy o = Some s -> s <> "".
Proof.
  destruct o as [x|]; [|discriminate]. simpl.
  destruct (String.eqb_spec x ""); [discriminate|]. now intros [= <-].
Qed.

Lemma started_in_order (key : string) (p : Routes.Described)
    (foes : list Routes.Described) :
  in_order (startBattle key (Routes.playerEntity p) (imap Routes.enemyEntity foes)).
Proof.
  split.
  - apply startBattle_distinct; [reflexivity|].
    apply List.Forall_forall. intros e He. apply list_elem_of_In in He.
    apply elem_of_lookup_imap in He as (i & x & -> & _).
    reflexivity.
  - intros hero [= <-]. simpl.
    destruct (truthy (Routes.g_id p)) as [i|] eqn:Hi; simpl; [|discriminate].
    now apply truthy_named in Hi.
Qed.

(** In every state the routes can reach, every battle is in order: the
    status keys of each of its entities are distinct, and its player has a
    non-empty id. *)
Lemma reachable_tidy (s : Routes.Server) : reachable s -> Routes.tidy (Routes.battles s).
Proof.
  induction 1 as [n | s req ext _ IH | s key p foes _ IH | s key intent snap _ IH].
  - intros k b Hk. simpl in Hk. rewrite lookup_empty in Hk. discriminate.
  - now apply dmResponse_tidy.
  - unfold Routes.combatStart.
    destruct (truthy key) as [cid|]; [|exact IH].
    destruct p as [described|]; [|exact IH].
    destruct (foes ≫= Routes.allPresent) as [present|]; [|exact IH].
    simpl. apply tidy_insert; [exact IH | apply started_in_order].
  - unfold Routes.combatAction.
    destruct (truthy key) as [cid|]; [|exact IH].
    destruct intent as [i|]; [|exact IH].
    destruct (resolveAction _ _ _ _ _ _ _) as [[[t' [b' evs]] n']|] eqn:Hres; simpl.
    + now apply resolveAction_tidy in Hres.
    + exact IH.
Qed.

End RouteFacts.



(** The two ways of a stored check: the climb stores [check_A] for the
    campaign; a roll result that carries this id removes it. *)
Example stored_check_is_resolved :
  Routes.pc_id <$> Routes.checksOf "c" Sample.waiting = ["check_A"]
  /\ Routes.checksOf "c"
       (fst (Sample.handle
               {| Routes.playerAction := Some (JS.str "I climb");
                  Routes.characterName := None;
                  Routes.gameContext := None;
                  Routes.campaignId := Some "c";
                  Routes.rollResult := Some Sample.fifteen;
                  Routes.pendingCheckId := Some "check_A";
                  Routes.selectedTarget := None;
                  Routes.sceneParticipants := [];
                  Routes.playerSnapshot := None |}
               Sample.quiet Sample.waiting)) = [].
Proof. split; vm_compute; reflexivity. Qed.

